(** * gitmt: a shallow embedding of the multi-account git manager

    The repository holds two revisions of one command-line program:

    - [src/unnamed/part_001], the revision with the [--alias] option and
      the SSH client configuration editor ([updateSSHConfig]); it is
      embedded in module [Part001];
    - [src/bin/gitmt.js], the revision with the [--local] option, the
      [global] command and the snapshot of the global git identity
      ([saveGlobalGitConfig]); it is embedded in module [Gitmt].

    Both are scripts that run once per invocation: they load the registry
    from [~/.gitmt/config.json] into the variable [config], run one
    command handler that mutates [config] in memory, and write it back
    with [saveConfig].  The embedding keeps that shape: module [JS] gives
    the built-in functions the handlers call, module [Machine] the state
    of a process and of the machine around it together with a small
    state-and-exception monad, and the two program modules translate the
    handlers one by one. *)

From Stdlib Require Import ZArith List Ascii String Bool Lia DecimalString
  DecimalPos.
From stdpp Require Import base option list strings gmap.

Local Open Scope Z_scope.
Local Open Scope string_scope.

(** ** Built-in functions of the language *)

Module JS.

(** Strings are sequences of code units below 256 (Rocq's [ascii]); code
    units above that range are outside the model. *)

Definition LF : ascii := ascii_of_nat 10.
Definition nl : string := String LF "".

(** A number as the handlers meet it: the result of [parseInt] or an
    integer read from the registry.  Integers are exact ([Z]); the
    rounding of doubles beyond 2^53 is outside the model. *)
Inductive Num := NaN | Int (z : Z).

Definition Z_to_string (z : Z) : string := NilZero.string_of_int (Z.to_int z).

(** [`${n}`] for a number. *)
Definition Num_to_string (n : Num) : string :=
  match n with NaN => "NaN" | Int z => Z_to_string z end.

(** [id === n] where [id] is a number of the registry. *)
Definition strict_eq (i : Z) (n : Num) : bool :=
  match n with NaN => false | Int z => Z.eqb i z end.

(** [a === n] where [a] is [null] or a number of the registry. *)
Definition strict_eq_opt (a : option Z) (n : Num) : bool :=
  match a with None => false | Some i => strict_eq i n end.

(** [!a] where [a] is [null] or a number: [null] and [0] are falsy. *)
Definition falsy (a : option Z) : bool :=
  match a with None => true | Some i => Z.eqb i 0 end.

(** [!o] where [o] is [null] or an object: only [null] is falsy. *)
Definition isNull {A} (o : option A) : bool :=
  match o with None => true | Some _ => false end.

(** White space and line terminators: TAB, LF, VT, FF, CR, SP and NBSP. *)
Definition isWhiteSpace (c : ascii) : bool :=
  let n := nat_of_ascii c in
  (Nat.eqb n 9 || Nat.eqb n 10 || Nat.eqb n 11 || Nat.eqb n 12
   || Nat.eqb n 13 || Nat.eqb n 32 || Nat.eqb n 160)%bool.

(** [\w]: letters, digits and the underscore. *)
Definition isWordChar (c : ascii) : bool :=
  let n := nat_of_ascii c in
  ((Nat.leb 48 n && Nat.leb n 57) || (Nat.leb 65 n && Nat.leb n 90)
   || (Nat.leb 97 n && Nat.leb n 122) || Nat.eqb n 95)%bool.

Definition isDigit (c : ascii) : bool :=
  let n := nat_of_ascii c in (Nat.leb 48 n && Nat.leb n 57)%bool.

(** [.] without the [s] flag: any code unit but a line terminator. *)
Definition isLineTerminator (c : ascii) : bool :=
  let n := nat_of_ascii c in (Nat.eqb n 10 || Nat.eqb n 13)%bool.

Fixpoint trimStart (s : list ascii) : list ascii :=
  match s with
  | c :: s' => if isWhiteSpace c then trimStart s' else s
  | [] => []
  end.

Definition trimEnd (s : list ascii) : list ascii := rev (trimStart (rev s)).

(** [String.prototype.trim]. *)
Definition trim (s : string) : string :=
  string_of_list_ascii (trimEnd (trimStart (list_ascii_of_string s))).

Definition lowerChar (c : ascii) : ascii :=
  let n := nat_of_ascii c in
  if (Nat.leb 65 n && Nat.leb n 90)%bool then ascii_of_nat (n + 32) else c.

(** [String.prototype.toLowerCase], on the letters A to Z. *)
Fixpoint toLowerCase (s : string) : string :=
  match s with
  | "" => ""
  | String c s' => String (lowerChar c) (toLowerCase s')
  end.

(** [s.replace(/\s+/g, "_")]: every maximal run of white space becomes one
    underscore. *)
Fixpoint underscoreSpacesFrom (inRun : bool) (s : string) : string :=
  match s with
  | "" => ""
  | String c s' =>
      if isWhiteSpace c
      then (if inRun then underscoreSpacesFrom true s'
            else String "_" (underscoreSpacesFrom true s'))
      else String c (underscoreSpacesFrom false s')
  end.

Definition underscoreSpaces (s : string) : string := underscoreSpacesFrom false s.

(** *** parseInt

    [parseInt(string)] with no radix: leading white space is skipped, a
    sign is read, a [0x] or [0X] prefix selects radix 16, and the longest
    prefix of digits of the radix is the value; when that prefix is empty
    the result is [NaN]. *)

Definition digitValue (c : ascii) : option Z :=
  let n := nat_of_ascii c in
  if (Nat.leb 48 n && Nat.leb n 57)%bool then Some (Z.of_nat (n - 48))
  else if (Nat.leb 97 n && Nat.leb n 122)%bool then Some (Z.of_nat (n - 87))
  else if (Nat.leb 65 n && Nat.leb n 90)%bool then Some (Z.of_nat (n - 55))
  else None.

Fixpoint digitsPrefix (R : Z) (s : list ascii) : list Z :=
  match s with
  | c :: s' =>
      match digitValue c with
      | Some d => if Z.ltb d R then d :: digitsPrefix R s' else []
      | None => []
      end
  | [] => []
  end.

Definition mathInt (R : Z) (ds : list Z) : Z :=
  fold_left (fun acc d => acc * R + d) ds 0.

Definition stripSign (s : list ascii) : Z * list ascii :=
  match s with
  | c :: s' =>
      if Ascii.eqb c "-" then (-1, s')
      else if Ascii.eqb c "+" then (1, s')
      else (1, s)
  | [] => (1, [])
  end.

Definition stripPrefix (s : list ascii) : Z * list ascii :=
  match s with
  | c :: d :: s' =>
      if (Ascii.eqb c "0" && (Ascii.eqb d "x" || Ascii.eqb d "X"))%bool
      then (16, s') else (10, s)
  | _ => (10, s)
  end.

Definition parseInt (str : string) : Num :=
  let input := trimStart (list_ascii_of_string str) in
  let '(sign, input) := stripSign input in
  let '(R, input) := stripPrefix input in
  match digitsPrefix R input with
  | [] => NaN
  | ds => Int (sign * mathInt R ds)
  end.

(** *** The regular expression of [updateSSHConfig]

    [new RegExp(`\\nHost github.com-${alias}[\\s\\S]*?(?=\\n\\w|$)`, "g")]:
    a line feed, the text [Host github], one [.] (any code unit but a line
    terminator), the text [com-], the alias, then as few code units as
    possible up to a place that is followed by a line feed and a word
    character, or that is the end of the input ([$] without the [m] flag).

    The alias is spliced into the source of the expression.  The model
    reads it as literal text, which is what the expression does for an
    alias made of characters that are not regular-expression syntax
    (letters, digits, [_], [-], space, ...). *)

Inductive Atom := Lit (c : ascii) | Dot.

Definition lits (s : string) : list Atom := map Lit (list_ascii_of_string s).

Definition headerPattern (alias : string) : list Atom :=
  Lit LF :: lits "Host github" ++ [Dot] ++ lits "com-" ++ lits alias.

Definition matchAtom (a : Atom) (c : ascii) : bool :=
  match a with
  | Lit d => Ascii.eqb c d
  | Dot => negb (isLineTerminator c)
  end.

(** The pattern matched at the start of [s]: what follows the match. *)
Fixpoint matchAtoms (p : list Atom) (s : string) : option string :=
  match p with
  | [] => Some s
  | a :: p' =>
      match s with
      | String c s' => if matchAtom a c then matchAtoms p' s' else None
      | "" => None
      end
  end.

(** [(?=\n\w|$)] at the start of [s]. *)
Definition lookahead (s : string) : bool :=
  match s with
  | "" => true
  | String c (String d _) => (Ascii.eqb c LF && isWordChar d)%bool
  | String _ "" => false
  end.

(** [[\s\S]*?] before the lookahead: the shortest prefix is dropped, the
    rest of the input from the first place where the lookahead holds is
    returned. *)
Fixpoint lazyAny (s : string) : string :=
  if lookahead s then s
  else match s with
       | String _ s' => lazyAny s'
       | "" => ""
       end.

(** [s.replace(regex, "")] with the [g] flag: matches are looked for from
    left to right, each search starting where the previous match ended.
    [fuel] bounds the number of steps; the length of the input is enough. *)
Fixpoint removeMatches (fuel : nat) (p : list Atom) (s : string) : string :=
  match fuel with
  | O => s
  | S fuel' =>
      match s with
      | "" => ""
      | String c s' =>
          match matchAtoms p s with
          | Some rest => removeMatches fuel' p (lazyAny rest)
          | None => String c (removeMatches fuel' p s')
          end
      end
  end.

Definition removeStanzas (alias : string) (sshConfig : string) : string :=
  removeMatches (String.length sshConfig) (headerPattern alias) sshConfig.

(** *** Shapes of an id argument

    [isNumeral s]: [s] is a decimal numeral, one digit or more and nothing
    else.  [leadingDigit s]: after leading white space and one optional
    sign, [s] goes on with a decimal digit. *)
Definition isNumeral (s : string) : bool :=
  match list_ascii_of_string s with
  | [] => false
  | l => forallb isDigit l
  end.

Definition leadingDigit (s : string) : bool :=
  match snd (stripSign (trimStart (list_ascii_of_string s))) with
  | c :: _ => isDigit c
  | [] => false
  end.

(** *** Shapes of a text

    [noLF s]: no line feed in [s].  [trimmed s]: [s] neither starts nor
    ends with white space.  [anyMatch p s]: the pattern [p] matches at
    some place of [s]. *)
Fixpoint noLF (s : string) : bool :=
  match s with
  | "" => true
  | String c s' => negb (Ascii.eqb c LF) && noLF s'
  end.

Definition startsClean (l : list ascii) : bool :=
  match l with
  | c :: _ => negb (isWhiteSpace c)
  | [] => true
  end.

Definition trimmed (s : string) : bool :=
  startsClean (list_ascii_of_string s)
  && startsClean (rev (list_ascii_of_string s)).


(** *** Predicates used to state properties of the text functions *)


(** The digits of a decimal number, most significant first. *)
Fixpoint digitsOf (d : Decimal.uint) : list Z :=
  match d with
  | Decimal.Nil => []
  | Decimal.D0 l => 0 :: digitsOf l
  | Decimal.D1 l => 1 :: digitsOf l
  | Decimal.D2 l => 2 :: digitsOf l
  | Decimal.D3 l => 3 :: digitsOf l
  | Decimal.D4 l => 4 :: digitsOf l
  | Decimal.D5 l => 5 :: digitsOf l
  | Decimal.D6 l => 6 :: digitsOf l
  | Decimal.D7 l => 7 :: digitsOf l
  | Decimal.D8 l => 8 :: digitsOf l
  | Decimal.D9 l => 9 :: digitsOf l
  end.

(** The characters of the decimal text of [d]. *)
Definition chars (d : Decimal.uint) : list ascii :=
  list_ascii_of_string (NilEmpty.string_of_uint d).

(** A digit of radix 16. *)
Definition isHexDigit (c : ascii) : bool :=
  match digitValue c with
  | Some v => Z.ltb v 16
  | None => false
  end.

(** [hexStub s]: after leading white space and one optional sign, [s]
    goes on with [0x] or [0X] and then with no hexadecimal digit. *)
Definition hexStub (s : string) : bool :=
  match snd (stripSign (trimStart (list_ascii_of_string s))) with
  | c :: d :: rest =>
      Ascii.eqb c "0" && (Ascii.eqb d "x" || Ascii.eqb d "X")
      && match rest with
         | h :: _ => negb (isHexDigit h)
         | [] => true
         end
  | _ => false
  end.



End JS.

(** ** The machine around one invocation *)

Module Machine.
Import JS.

(** What [git.getConfig(key, "global")] does in a given state of the
    machine: the promise is rejected, or it resolves to a result whose
    [value] is a string or [null].  The handlers only tell these cases
    apart, so the git configuration is kept as the answer to each of the
    two keys they use. *)
Inductive GetResult := Rejects | Resolves (value : option string).

Inductive GitKey := UserName | UserEmail.
Inductive Scope := Global | Local.

Record GitStore := { user_name : GetResult; user_email : GetResult }.

(** The registry file [~/.gitmt/config.json]: missing, present with a
    text [JSON.parse] refuses, or present and holding a registry.
    [JSON.stringify] followed by [JSON.parse] gives the registry back, so
    a parseable file is identified with the registry it holds. *)
Inductive RegFile (C : Type) :=
  | Absent
  | Unparseable
  | Holds (c : C).
Arguments Absent {C}.
Arguments Unparseable {C}.
Arguments Holds {C} c.

(** Everything outside the process.  [configWrites] counts the times the
    registry file has been written.  [fs] is the content of [~/.ssh] by
    path (the SSH client configuration and the key files); failures of
    the file system other than the one [Env] names are outside the
    model. *)
Record World (C : Type) := mkWorld {
  homedir : string;
  configDir : bool;
  configFile : RegFile C;
  configWrites : nat;
  fs : gmap string string;
  gitGlobal : GitStore;
  gitLocal : GitStore;
  stdout : list string;
  stderr : list string
}.
Arguments mkWorld {C}.
Arguments homedir {C}.
Arguments configDir {C}.
Arguments configFile {C}.
Arguments configWrites {C}.
Arguments fs {C}.
Arguments gitGlobal {C}.
Arguments gitLocal {C}.
Arguments stdout {C}.
Arguments stderr {C}.

(** What the outside answers during one invocation: the answer to the
    [confirm] prompt, the key pair [ssh-keygen] writes ([None] when
    [execSync] throws), and the error [fs.unlinkSync] throws, if any. *)
Record Env := mkEnv {
  confirmAnswer : bool;
  keygen : option (string * string);
  unlinkError : option string
}.

Inductive Error :=
  | SyntaxError
  | TypeError (msg : string)
  | ExecError
  | FsError (msg : string)
  | GitError.

Definition message (e : Error) : string :=
  match e with
  | SyntaxError => "Unexpected token in JSON"
  | TypeError msg => msg
  | ExecError => "Command failed"
  | FsError msg => msg
  | GitError => "git config failed"
  end.

(** A running process: the variable [config] and the machine. *)
Record Proc (C : Type) := mkProc { config : C; world : World C }.
Arguments mkProc {C}.
Arguments config {C}.
Arguments world {C}.

Inductive Res (C A : Type) :=
  | Ret (a : A) (p : Proc C)
  | Raise (e : Error) (p : Proc C).
Arguments Ret {C A}.
Arguments Raise {C A}.

Definition M (C A : Type) : Type := Proc C -> Res C A.

#[global] Instance M_ret {C} : MRet (M C) := fun A a p => Ret a p.
#[global] Instance M_bind {C} : MBind (M C) := fun A B f m p =>
  match m p with
  | Ret a p' => f a p'
  | Raise e p' => Raise e p'
  end.

Definition raise {C A} (e : Error) : M C A := fun p => Raise e p.

(** A branch with nothing in it, and [if (b) { body }] with no [else]. *)
Definition skip {C} : M C unit := mret ().
Definition when {C} (b : bool) (body : M C unit) : M C unit :=
  if b then body else skip.

(** [try { body } catch (error) { handler }]: what [body] did before it
    threw stays done. *)
Definition tryCatch {C} (body : M C unit) (handler : Error -> M C unit) : M C unit :=
  fun p =>
    match body p with
    | Ret a p' => Ret a p'
    | Raise e p' => handler e p'
    end.

Section Primitives.
Context {C : Type}.

Definition readConfig : M C C := fun p => Ret (config p) p.
Definition setConfig (c : C) : M C unit := fun p => Ret () (mkProc c (world p)).
Definition getWorld : M C (World C) := fun p => Ret (world p) p.
Definition modifyWorld (f : World C -> World C) : M C unit :=
  fun p => Ret () (mkProc (config p) (f (world p))).

Definition set_configDir (b : bool) (w : World C) : World C :=
  mkWorld (homedir w) b (configFile w) (configWrites w) (fs w) (gitGlobal w)
          (gitLocal w) (stdout w) (stderr w).
Definition set_configFile (f : RegFile C) (w : World C) : World C :=
  mkWorld (homedir w) (configDir w) f (configWrites w) (fs w) (gitGlobal w)
          (gitLocal w) (stdout w) (stderr w).
Definition set_configWrites (n : nat) (w : World C) : World C :=
  mkWorld (homedir w) (configDir w) (configFile w) n (fs w) (gitGlobal w)
          (gitLocal w) (stdout w) (stderr w).
Definition set_fs (m : gmap string string) (w : World C) : World C :=
  mkWorld (homedir w) (configDir w) (configFile w) (configWrites w) m
          (gitGlobal w) (gitLocal w) (stdout w) (stderr w).
Definition set_gitGlobal (g : GitStore) (w : World C) : World C :=
  mkWorld (homedir w) (configDir w) (configFile w) (configWrites w) (fs w) g
          (gitLocal w) (stdout w) (stderr w).
Definition set_gitLocal (g : GitStore) (w : World C) : World C :=
  mkWorld (homedir w) (configDir w) (configFile w) (configWrites w) (fs w)
          (gitGlobal w) g (stdout w) (stderr w).
Definition set_stdout (l : list string) (w : World C) : World C :=
  mkWorld (homedir w) (configDir w) (configFile w) (configWrites w) (fs w)
          (gitGlobal w) (gitLocal w) l (stderr w).
Definition set_stderr (l : list string) (w : World C) : World C :=
  mkWorld (homedir w) (configDir w) (configFile w) (configWrites w) (fs w)
          (gitGlobal w) (gitLocal w) (stdout w) l.

(** [writeFileSync(CONFIG_FILE, JSON.stringify(c, null, 2))]. *)
Definition writeConfigFile (c : C) : M C unit :=
  modifyWorld (fun w =>
    set_configWrites (S (configWrites w)) (set_configFile (Holds c) w)).

(** [console.log] and [console.error]: one more line on the stream. *)
Definition consoleLog (line : string) : M C unit :=
  modifyWorld (fun w => set_stdout (stdout w ++ [line]) w).
Definition consoleError (line : string) : M C unit :=
  modifyWorld (fun w => set_stderr (stderr w ++ [line]) w).

(** [path.join] of a directory and a file name with no separator or dot
    segment in it. *)
Definition path_join (dir file : string) : string := dir +:+ "/" +:+ file.

Definition SSH_DIR (w : World C) : string := path_join (homedir w) ".ssh".
Definition SSH_CONFIG_FILE (w : World C) : string := path_join (SSH_DIR w) "config".

Definition existsSync (path : string) : M C bool :=
  fun p => Ret (bool_decide (is_Some (fs (world p) !! path))) p.

Definition readFileSync (path : string) : M C string :=
  fun p =>
    match fs (world p) !! path with
    | Some text => Ret text p
    | None => Raise (FsError "ENOENT: no such file or directory") p
    end.

Definition writeFileSync (path text : string) : M C unit :=
  modifyWorld (fun w => set_fs (<[path := text]> (fs w)) w).

Definition unlinkSync (env : Env) (path : string) : M C unit :=
  match unlinkError env with
  | Some msg => raise (FsError msg)
  | None => modifyWorld (fun w => set_fs (delete path (fs w)) w)
  end.

(** [execSync(`ssh-keygen -t rsa -b 4096 -C "..." -f "${path}" -N ""`)]:
    the private key at [path] and the public key at [path.pub]. *)
Definition execSync_ssh_keygen (env : Env) (path : string) : M C unit :=
  match keygen env with
  | None => raise ExecError
  | Some (priv, pub) =>
      writeFileSync path priv;;
      writeFileSync (path +:+ ".pub") pub
  end.

Definition readKey (k : GitKey) (g : GitStore) : GetResult :=
  match k with UserName => user_name g | UserEmail => user_email g end.

Definition writeKey (k : GitKey) (v : string) (g : GitStore) : GitStore :=
  match k with
  | UserName => {| user_name := Resolves (Some v); user_email := user_email g |}
  | UserEmail => {| user_name := user_name g; user_email := Resolves (Some v) |}
  end.

(** [await git.getConfig(key, "global")], then [.value]. *)
Definition git_getConfig (k : GitKey) : M C (option string) :=
  fun p =>
    match readKey k (gitGlobal (world p)) with
    | Rejects => Raise GitError p
    | Resolves v => Ret v p
    end.

(** [await git.addConfig(key, value, false, scope)]. *)
Definition git_addConfig (k : GitKey) (v : string) (scope : Scope) : M C unit :=
  modifyWorld (fun w =>
    match scope with
    | Global => set_gitGlobal (writeKey k v (gitGlobal w)) w
    | Local => set_gitLocal (writeKey k v (gitLocal w)) w
    end).

(** [array.forEach(f)]. *)
Fixpoint forEach {A} (l : list A) (f : A -> M C unit) : M C unit :=
  match l with
  | [] => skip
  | x :: l' => f x;; forEach l' f
  end.

(** The top of the script: the configuration directory is made when it is
    missing, and [config] is read from the registry file when there is
    one. *)
Definition startup : M C unit :=
  w ← getWorld;
  when (negb (configDir w)) (modifyWorld (set_configDir true));;
  match configFile w with
  | Absent => skip
  | Unparseable => raise SyntaxError
  | Holds c => setConfig c
  end.

(** The machine once the top of the script has made the directory. *)
Definition ensureDir (w : World C) : World C :=
  if configDir w then w else set_configDir true w.

(** The registry the script holds once the top has run, when the file is
    absent or parseable. *)
Definition loaded (initial : C) (w : World C) : C :=
  match configFile w with
  | Holds c => c
  | _ => initial
  end.

(** How one invocation ends: the exception that reached the top, if any,
    and the machine it leaves. *)
Record Outcome := mkOutcome { thrown : option Error; after : World C }.

Definition outcome {A} (r : Res C A) : Outcome :=
  match r with
  | Ret _ p => mkOutcome None (world p)
  | Raise e p => mkOutcome (Some e) (world p)
  end.

(** One invocation: [initial] is the registry the script starts with. *)
Definition invoke (initial : C) (action : M C unit) (w : World C) : Outcome :=
  outcome ((startup;; action) (mkProc initial w)).

(** The stores an invocation can write to are the same in [w'] as in
    [w]: the registry file, which has not been written in between, the
    files of [~/.ssh] and the git configuration at both scopes. *)
Definition sameStores (w w' : World C) : Prop :=
  configFile w' = configFile w /\ configWrites w' = configWrites w /\
  fs w' = fs w /\ gitGlobal w' = gitGlobal w /\ gitLocal w' = gitLocal w.

(** The git identity at [scope]. *)
Definition gitAt (scope : Scope) (w : World C) : GitStore :=
  match scope with Global => gitGlobal w | Local => gitLocal w end.

End Primitives.
Arguments Outcome C : clear implicits.

End Machine.

(** ** [src/unnamed/part_001]: the revision with aliases and SSH stanzas *)

Module Part001.
Import JS Machine.

Record User := mkUser {
  id : Z;
  name : string;
  email : string;
  alias : string;
  sshKeyPath : string
}.

(** [let config = { users: [], activeUser: null }].  A number stored in
    [activeUser] is kept as [Some]; [null] is [None]. *)
Record Config := mkConfig { users : list User; activeUser : option Z }.

Definition initialConfig : Config := {| users := []; activeUser := None |}.

(** The options of [add]: [--name], [--email] and [--alias]. *)
Record Options := mkOptions {
  opt_name : string;
  opt_email : string;
  opt_alias : string
}.

(** The block [updateSSHConfig] appends. *)
Definition newConfig (alias sshKeyPath : string) : string :=
  nl +:+ "Host github.com-" +:+ alias +:+ nl +:+
  "    HostName github.com" +:+ nl +:+
  "    User git" +:+ nl +:+
  "    IdentityFile " +:+ sshKeyPath +:+ nl +:+
  "    IdentitiesOnly yes" +:+ nl.

Definition updateSSHConfig (alias sshKeyPath : string) (isRemove : bool)
  : M Config unit :=
  w ← getWorld;
  let sshConfig := default "" (fs w !! SSH_CONFIG_FILE w) in
  let sshConfig :=
    if isRemove then removeStanzas alias sshConfig
    else sshConfig +:+ newConfig alias sshKeyPath in
  writeFileSync (SSH_CONFIG_FILE w) (trim sshConfig +:+ nl).

Definition saveConfig : M Config unit :=
  c ← readConfig;
  writeConfigFile c.

Definition setGitConfig (name email : string) : M Config unit :=
  git_addConfig UserName name Global;;
  git_addConfig UserEmail email Global.

Definition add (options : Options) (env : Env) : M Config unit :=
  w ← getWorld;
  let sshKeyPath :=
    path_join (SSH_DIR w) ("id_rsa_gitmt_" +:+ toLowerCase (opt_alias options)) in
  keyExists ← existsSync sshKeyPath;
  when (negb keyExists)
    (let generateKey := confirmAnswer env in
     when generateKey
       (execSync_ssh_keygen env sshKeyPath;;
        consoleLog ("SSH key generated at: " +:+ sshKeyPath);;
        updateSSHConfig (opt_alias options) sshKeyPath false;;
        consoleLog "SSH config updated. You can now clone repositories using:";;
        consoleLog ("git clone git@github.com-" +:+ opt_alias options
                    +:+ ":username/repo.git")));;
  c ← readConfig;
  let userId := Z.of_nat (length (users c)) + 1 in
  setConfig {| users := users c ++ [ {| id := userId;
                                        name := opt_name options;
                                        email := opt_email options;
                                        alias := opt_alias options;
                                        sshKeyPath := sshKeyPath |} ];
               activeUser := activeUser c |};;
  c ← readConfig;
  when (falsy (activeUser c))
    (setConfig {| users := users c; activeUser := Some userId |};;
     setGitConfig (opt_name options) (opt_email options));;
  updateSSHConfig (opt_name options) sshKeyPath false;;
  saveConfig;;
  consoleLog ("Added user " +:+ opt_name options
              +:+ " (ID: " +:+ Z_to_string userId +:+ ")").

(** [u.id === config.activeUser]. *)
Definition isActive (c : Config) (u : User) : bool :=
  match activeUser c with
  | Some a => Z.eqb (id u) a
  | None => false
  end.

Definition current : M Config unit :=
  c ← readConfig;
  if falsy (activeUser c) then consoleLog "No active git user"
  else
    match find (isActive c) (users c) with
    | Some user =>
        consoleLog ("Current active user: " +:+ name user +:+ " <"
                    +:+ email user +:+ "> (ID: " +:+ Z_to_string (id user) +:+ ")")
    | None =>
        raise (TypeError "Cannot read properties of undefined (reading 'name')")
    end.

(** The number [config.activeUser = userId] stores: [NaN] and [null] are
    the same to every use the script makes of [activeUser] ([!], [===],
    [JSON.stringify]). *)
Definition stored (n : Num) : option Z :=
  match n with NaN => None | Int z => Some z end.

Definition remove (idArg : string) (env : Env) : M Config unit :=
  let userId := parseInt idArg in
  c ← readConfig;
  match list_find (fun u => strict_eq (id u) userId) (users c) with
  | None => consoleLog ("No user found with ID " +:+ Num_to_string userId)
  | Some (userIndex, user) =>
      privExists ← existsSync (sshKeyPath user);
      pubExists ← existsSync (sshKeyPath user +:+ ".pub");
      let sshKeyExists := (privExists || pubExists)%bool in
      when sshKeyExists
        (let removeSSH := confirmAnswer env in
         when removeSSH
           (tryCatch
              (privExists ← existsSync (sshKeyPath user);
               when privExists (unlinkSync env (sshKeyPath user));;
               pubExists ← existsSync (sshKeyPath user +:+ ".pub");
               when pubExists (unlinkSync env (sshKeyPath user +:+ ".pub"));;
               updateSSHConfig (alias user) "" true;;
               consoleLog ("SSH keys and config removed for " +:+ name user))
              (fun error =>
                 consoleError ("Error removing SSH keys: " +:+ message error))));;
      c ← readConfig;
      setConfig {| users := delete userIndex (users c);
                   activeUser := activeUser c |};;
      c ← readConfig;
      when (strict_eq_opt (activeUser c) userId)
        (setConfig {| users := users c; activeUser := None |});;
      updateSSHConfig (name user) (sshKeyPath user) true;;
      saveConfig;;
      consoleLog ("Removed user " +:+ name user
                  +:+ " (ID: " +:+ Num_to_string userId +:+ ")")
  end.

Definition change (idArg : string) : M Config unit :=
  let userId := parseInt idArg in
  c ← readConfig;
  match find (fun u => strict_eq (id u) userId) (users c) with
  | None => consoleLog ("No user found with ID " +:+ Num_to_string userId)
  | Some user =>
      setConfig {| users := users c; activeUser := stored userId |};;
      setGitConfig (name user) (email user);;
      saveConfig;;
      consoleLog ("Switched to user: " +:+ name user +:+ " <"
                  +:+ email user +:+ ">")
  end.

(** The handler of the [list] command. *)
Definition list_ : M Config unit :=
  c ← readConfig;
  if Nat.eqb (length (users c)) 0 then consoleLog "No users configured"
  else
    consoleLog "Configured git users:";;
    forEach (users c) (fun user =>
      let activeMarker := if isActive c user then "(active)" else "" in
      consoleLog (Z_to_string (id user) +:+ ". " +:+ name user +:+ " <"
                  +:+ email user +:+ "> [" +:+ alias user +:+ "] "
                  +:+ activeMarker);;
      consoleLog ("   Clone URL format: git clone git@github.com-"
                  +:+ alias user +:+ ":username/repo.git")).

Definition key (idArg : string) : M Config unit :=
  let userId := parseInt idArg in
  c ← readConfig;
  match find (fun u => strict_eq (id u) userId) (users c) with
  | None => consoleLog ("No user found with ID " +:+ Num_to_string userId)
  | Some user =>
      let publicKeyPath := sshKeyPath user +:+ ".pub" in
      pubExists ← existsSync publicKeyPath;
      if negb pubExists
      then consoleLog ("No SSH key found for user " +:+ name user)
      else
        publicKey ← readFileSync publicKeyPath;
        consoleLog ("Public SSH key for " +:+ name user +:+ ":");;
        consoleLog publicKey
  end.

(** The command line: one verb and its arguments. *)
Inductive Command :=
  | Add (options : Options)
  | Current
  | Remove (idArg : string)
  | Change (idArg : string)
  | List
  | Key (idArg : string).

Definition handler (cmd : Command) (env : Env) : M Config unit :=
  match cmd with
  | Add options => add options env
  | Current => current
  | Remove idArg => remove idArg env
  | Change idArg => change idArg
  | List => list_
  | Key idArg => key idArg
  end.

(** One run of the script. *)
Definition run (cmd : Command) (env : Env) (w : World Config) : Outcome Config :=
  invoke initialConfig (handler cmd env) w.

(** A run after another, each with the answers of its own environment. *)
Fixpoint runs (script : list (Command * Env)) (w : World Config) : World Config :=
  match script with
  | [] => w
  | (cmd, env) :: script' => runs script' (after (run cmd env w))
  end.

(** The registry a machine holds on disk: the one the next run starts
    from. *)
Definition registry (w : World Config) : Config :=
  match configFile w with
  | Holds c => c
  | _ => initialConfig
  end.

(** The lines of a text, and the number of stanzas of the SSH client
    configuration whose header line is [Host github.com-<alias>]. *)
Fixpoint linesFrom (cur : string) (s : string) : list string :=
  match s with
  | "" => [String.rev cur]
  | String c s' =>
      if Ascii.eqb c LF then String.rev cur :: linesFrom "" s'
      else linesFrom (String c cur) s'
  end.

Definition lines (s : string) : list string := linesFrom "" s.

Definition stanzaCount (alias : string) (sshConfig : string) : nat :=
  length (filter (fun l => l = "Host github.com-" +:+ alias) (lines sshConfig)).

Definition sshConfigOf (w : World Config) : string :=
  default "" (fs w !! SSH_CONFIG_FILE w).

(** *** What the handlers leave in the registry

    [keyPathOf], [added] and [removed] name the path [add] computes and
    the registries a completed [add] and [remove] leave; the lemmas
    [add_effect] and [remove_effect] below show the handlers compute
    them. *)
Definition keyPathOf (w : World Config) (alias : string) : string :=
  path_join (SSH_DIR w) ("id_rsa_gitmt_" +:+ toLowerCase alias).

Definition added (options : Options) (path : string) (c : Config) : Config :=
  let userId := Z.of_nat (length (users c)) + 1 in
  {| users := users c ++ [ {| id := userId;
                              name := opt_name options;
                              email := opt_email options;
                              alias := opt_alias options;
                              sshKeyPath := path |} ];
     activeUser := if falsy (activeUser c) then Some userId else activeUser c |}.

Definition removed (userIndex : nat) (userId : Num) (c : Config) : Config :=
  {| users := delete userIndex (users c);
     activeUser := if strict_eq_opt (activeUser c) userId then None
                   else activeUser c |}.

Definition notFound (userId : Num) (p : Proc Config) : Proc Config :=
  mkProc (config p)
         (set_stdout (stdout (world p)
                      ++ ["No user found with ID " +:+ Num_to_string userId])
                     (world p)).

(** *** Properties of a registry *)

(** No two records carry the same alias. *)
Definition uniqueAliases (c : Config) : Prop := NoDup (alias <$> users c).

(** [activeUser] is [null] or the id of a record of [users]. *)
Definition activeValid (c : Config) : Prop :=
  match activeUser c with
  | None => True
  | Some a => exists u, u ∈ users c /\ id u = a
  end.

Definition isAddRemove (cmd : Command) : bool :=
  match cmd with Add _ | Remove _ => true | _ => false end.

Definition isReadOnly (cmd : Command) : bool :=
  match cmd with List | Current | Key _ => true | _ => false end.

(** Along the runs of [script] from [w], every [add] brings an alias no
    record of the registry carries at that time. *)
Fixpoint freshAliases (script : list (Command * Env)) (w : World Config) : Prop :=
  match script with
  | [] => True
  | (cmd, env) :: script' =>
      match cmd with
      | Add options => opt_alias options ∉ alias <$> users (registry w)
      | _ => True
      end /\ freshAliases script' (after (run cmd env w))
  end.

(** *** Machines and command lines used in the examples *)

Definition noIdentity : GitStore := {| user_name := Rejects; user_email := Rejects |}.

(** A machine on which the script has never run: no registry file, an
    empty [~/.ssh], no git identity. *)
Definition fresh : World Config :=
  {| homedir := "/home/u"; configDir := false; configFile := Absent;
     configWrites := 0; fs := ∅; gitGlobal := noIdentity; gitLocal := noIdentity;
     stdout := []; stderr := [] |}.

(** Every prompt accepted, and every prompt declined. *)
Definition accept : Env :=
  {| confirmAnswer := true; keygen := Some ("PRIVATE", "PUBLIC");
     unlinkError := None |}.
Definition decline : Env :=
  {| confirmAnswer := false; keygen := None; unlinkError := None |}.

Definition jane : Options :=
  {| opt_name := "Jane Doe"; opt_email := "jane@x.com"; opt_alias := "jane" |}.
Definition bob : Options :=
  {| opt_name := "Bob Roe"; opt_email := "bob@x.com"; opt_alias := "bob" |}.
Definition carol : Options :=
  {| opt_name := "Carol Poe"; opt_email := "carol@x.com"; opt_alias := "carol" |}.

(** The SSH client configuration [add] leaves for [jane] on [fresh] when
    the key is generated, cut down to the stanza of the alias. *)
Definition janeStanza : string :=
  "Host github.com-jane" +:+ nl +:+
  "    HostName github.com" +:+ nl +:+
  "    User git" +:+ nl +:+
  "    IdentityFile /home/u/.ssh/id_rsa_gitmt_jane" +:+ nl +:+
  "    IdentitiesOnly yes" +:+ nl.

Definition withSshConfig (text : string) (w : World Config) : World Config :=
  set_fs (<[SSH_CONFIG_FILE w := text]> (fs w)) w.

(** A registry file whose [activeUser] is the id of no record. *)
Definition dangling : World Config :=
  set_configFile (Holds {| users := []; activeUser := Some 5 |}) fresh.

(** *** Notions used to state what the handlers do *)

(** The header line of the stanza of an alias, the stanza without the
    line feeds around it, and the texts [updateSSHConfig] leaves: a
    trimmed text and one line feed. *)
Definition header (alias : string) : string := "Host github.com-" +:+ alias.

Definition stanza (alias sshKeyPath : string) : string :=
  header alias +:+ nl +:+
  "    HostName github.com" +:+ nl +:+
  "    User git" +:+ nl +:+
  ("    IdentityFile " +:+ sshKeyPath) +:+ nl +:+
  "    IdentitiesOnly yes".

Definition asWritten (text : string) : Prop :=
  exists t, text = t +:+ nl /\ trimmed t = true.

(** The git identity [setGitConfig] leaves. *)
Definition gitIdentity (name email : string) : GitStore :=
  {| user_name := Resolves (Some name); user_email := Resolves (Some email) |}.

(** [add] reaches [ssh-keygen] and [ssh-keygen] fails. *)
Definition keygenFails (path : string) (env : Env) (w : World Config) : Prop :=
  fs w !! path = None /\ confirmAnswer env = true /\ keygen env = None.


(** The ids of a registry that only [add] has numbered: the record at
    position [k] (from 0) has an id above [k], and the active id, when
    there is one, is positive. *)
Definition wellNumbered (c : Config) : Prop :=
  (forall k u, users c !! k = Some u -> Z.of_nat k < id u)
  /\ (forall a, activeUser c = Some a -> 0 < a).

End Part001.

(** ** [src/bin/gitmt.js]: the revision with scopes and the snapshot *)

Module Gitmt.
Import JS Machine.

Record User := mkUser {
  id : Z;
  name : string;
  email : string;
  sshKeyPath : string
}.

(** [{ name: userName.value, email: userEmail.value }]: each field is a
    string or [null]. *)
Record GlobalConfig := mkGlobalConfig {
  g_name : option string;
  g_email : option string
}.

(** [let config = { users: [], activeUser: null, globalConfig: null }]. *)
Record Config := mkConfig {
  users : list User;
  activeUser : option Z;
  globalConfig : option GlobalConfig
}.

Definition initialConfig : Config :=
  {| users := []; activeUser := None; globalConfig := None |}.

(** The options of [add] and [change]: [--name], [--email], [--local]. *)
Record Options := mkOptions {
  opt_name : string;
  opt_email : string;
  opt_local : bool
}.

Definition saveConfig : M Config unit :=
  c ← readConfig;
  writeConfigFile c.

Definition saveGlobalGitConfig : M Config unit :=
  tryCatch
    (userName ← git_getConfig UserName;
     userEmail ← git_getConfig UserEmail;
     c ← readConfig;
     setConfig {| users := users c; activeUser := activeUser c;
                  globalConfig := Some {| g_name := userName;
                                          g_email := userEmail |} |};;
     saveConfig)
    (fun error => consoleLog "No global git config found").

Definition setGitConfig (name email : string) (scope : Scope) : M Config unit :=
  c ← readConfig;
  when (isNull (globalConfig c)) saveGlobalGitConfig;;
  git_addConfig UserName name scope;;
  git_addConfig UserEmail email scope.

(** [options.local ? "local" : "global"]. *)
Definition scopeOf (local : bool) : Scope := if local then Local else Global.

Definition add (options : Options) (env : Env) : M Config unit :=
  w ← getWorld;
  let sshKeyPath :=
    path_join (SSH_DIR w)
      ("id_rsa_gitmt_" +:+ toLowerCase (underscoreSpaces (opt_name options))) in
  keyExists ← existsSync sshKeyPath;
  when (negb keyExists)
    (let generateKey := confirmAnswer env in
     when generateKey
       (execSync_ssh_keygen env sshKeyPath;;
        consoleLog ("SSH key generated at: " +:+ sshKeyPath)));;
  c ← readConfig;
  let userId := Z.of_nat (length (users c)) + 1 in
  setConfig {| users := users c ++ [ {| id := userId;
                                        name := opt_name options;
                                        email := opt_email options;
                                        sshKeyPath := sshKeyPath |} ];
               activeUser := activeUser c;
               globalConfig := globalConfig c |};;
  c ← readConfig;
  when (falsy (activeUser c))
    (setConfig {| users := users c; activeUser := Some userId;
                  globalConfig := globalConfig c |};;
     setGitConfig (opt_name options) (opt_email options)
                  (scopeOf (opt_local options)));;
  saveConfig;;
  consoleLog ("Added user " +:+ opt_name options
              +:+ " (ID: " +:+ Z_to_string userId +:+ ")").

(** [u.id === config.activeUser]. *)
Definition isActive (c : Config) (u : User) : bool :=
  match activeUser c with
  | Some a => Z.eqb (id u) a
  | None => false
  end.

Definition current : M Config unit :=
  c ← readConfig;
  if falsy (activeUser c) then consoleLog "No active git user"
  else
    match find (isActive c) (users c) with
    | Some user =>
        consoleLog ("Current active user: " +:+ name user +:+ " <"
                    +:+ email user +:+ "> (ID: " +:+ Z_to_string (id user) +:+ ")")
    | None =>
        raise (TypeError "Cannot read properties of undefined (reading 'name')")
    end.

(** The number [config.activeUser = userId] stores, as in [Part001]. *)
Definition stored (n : Num) : option Z :=
  match n with NaN => None | Int z => Some z end.

Definition remove (idArg : string) (env : Env) : M Config unit :=
  let userId := parseInt idArg in
  c ← readConfig;
  match list_find (fun u => strict_eq (id u) userId) (users c) with
  | None => consoleLog ("No user found with ID " +:+ Num_to_string userId)
  | Some (userIndex, user) =>
      privExists ← existsSync (sshKeyPath user);
      pubExists ← existsSync (sshKeyPath user +:+ ".pub");
      let sshKeyExists := (privExists || pubExists)%bool in
      when sshKeyExists
        (let removeSSH := confirmAnswer env in
         when removeSSH
           (tryCatch
              (privExists ← existsSync (sshKeyPath user);
               when privExists (unlinkSync env (sshKeyPath user));;
               pubExists ← existsSync (sshKeyPath user +:+ ".pub");
               when pubExists (unlinkSync env (sshKeyPath user +:+ ".pub"));;
               consoleLog ("SSH keys removed for " +:+ name user))
              (fun error =>
                 consoleError ("Error removing SSH keys: " +:+ message error))));;
      c ← readConfig;
      setConfig {| users := delete userIndex (users c);
                   activeUser := activeUser c;
                   globalConfig := globalConfig c |};;
      c ← readConfig;
      when (strict_eq_opt (activeUser c) userId)
        (setConfig {| users := users c; activeUser := None;
                      globalConfig := globalConfig c |});;
      saveConfig;;
      consoleLog ("Removed user " +:+ name user
                  +:+ " (ID: " +:+ Num_to_string userId +:+ ")")
  end.

Definition change (idArg : string) (local : bool) : M Config unit :=
  let userId := parseInt idArg in
  c ← readConfig;
  match find (fun u => strict_eq (id u) userId) (users c) with
  | None => consoleLog ("No user found with ID " +:+ Num_to_string userId)
  | Some user =>
      setConfig {| users := users c; activeUser := stored userId;
                   globalConfig := globalConfig c |};;
      setGitConfig (name user) (email user) (scopeOf local);;
      saveConfig;;
      consoleLog ("Switched to user: " +:+ name user +:+ " <"
                  +:+ email user +:+ ">")
  end.

(** The handler of the [list] command. *)
Definition list_ : M Config unit :=
  c ← readConfig;
  if Nat.eqb (length (users c)) 0 then consoleLog "No users configured"
  else
    consoleLog "Configured git users:";;
    forEach (users c) (fun user =>
      let activeMarker := if isActive c user then "(active)" else "" in
      consoleLog (Z_to_string (id user) +:+ ". " +:+ name user +:+ " <"
                  +:+ email user +:+ "> " +:+ activeMarker)).

(** [`${v}`] for a string or [null]. *)
Definition show (v : option string) : string := default "null" v.

(** The handler of the [global] command. *)
Definition global : M Config unit :=
  c ← readConfig;
  match globalConfig c with
  | Some g =>
      consoleLog "Saved global git config:";;
      consoleLog ("Name: " +:+ show (g_name g));;
      consoleLog ("Email: " +:+ show (g_email g))
  | None => consoleLog "No saved global git config"
  end.

Definition key (idArg : string) : M Config unit :=
  let userId := parseInt idArg in
  c ← readConfig;
  match find (fun u => strict_eq (id u) userId) (users c) with
  | None => consoleLog ("No user found with ID " +:+ Num_to_string userId)
  | Some user =>
      let publicKeyPath := sshKeyPath user +:+ ".pub" in
      pubExists ← existsSync publicKeyPath;
      if negb pubExists
      then consoleLog ("No SSH key found for user " +:+ name user)
      else
        publicKey ← readFileSync publicKeyPath;
        consoleLog ("Public SSH key for " +:+ name user +:+ ":");;
        consoleLog publicKey
  end.

Inductive Command :=
  | Add (options : Options)
  | Current
  | Remove (idArg : string)
  | Change (idArg : string) (local : bool)
  | List
  | GlobalCmd
  | Key (idArg : string).

Definition handler (cmd : Command) (env : Env) : M Config unit :=
  match cmd with
  | Add options => add options env
  | Current => current
  | Remove idArg => remove idArg env
  | Change idArg local => change idArg local
  | List => list_
  | GlobalCmd => global
  | Key idArg => key idArg
  end.

Definition run (cmd : Command) (env : Env) (w : World Config) : Outcome Config :=
  invoke initialConfig (handler cmd env) w.

Fixpoint runs (script : list (Command * Env)) (w : World Config) : World Config :=
  match script with
  | [] => w
  | (cmd, env) :: script' => runs script' (after (run cmd env w))
  end.

Definition registry (w : World Config) : Config :=
  match configFile w with
  | Holds c => c
  | _ => initialConfig
  end.

(** *** Properties of a registry *)

Definition activeValid (c : Config) : Prop :=
  match activeUser c with
  | None => True
  | Some a => exists u, u ∈ users c /\ id u = a
  end.

Definition isReadOnly (cmd : Command) : bool :=
  match cmd with List | Current | GlobalCmd | Key _ => true | _ => false end.

(** *** What [add] leaves in the list of records *)
Definition keyPathOf (w : World Config) (name : string) : string :=
  path_join (SSH_DIR w) ("id_rsa_gitmt_" +:+ toLowerCase (underscoreSpaces name)).

Definition newUser (options : Options) (path : string) (c : Config) : User :=
  {| id := Z.of_nat (length (users c)) + 1;
     name := opt_name options;
     email := opt_email options;
     sshKeyPath := path |}.

Definition notFound (userId : Num) (p : Proc Config) : Proc Config :=
  mkProc (config p)
         (set_stdout (stdout (world p)
                      ++ ["No user found with ID " +:+ Num_to_string userId])
                     (world p)).

(** *** The git identity *)

(** The git configuration in which both keys are read, with values [n]
    and [e]. *)
Definition identity (n e : option string) : GitStore :=
  {| user_name := Resolves n; user_email := Resolves e |}.



(** *** Machines and command lines used in the examples *)

Definition fresh : World Config :=
  {| homedir := "/home/u"; configDir := false; configFile := Absent;
     configWrites := 0; fs := ∅;
     gitGlobal := identity (Some "Dev") (Some "dev@x.com");
     gitLocal := {| user_name := Rejects; user_email := Rejects |};
     stdout := []; stderr := [] |}.

Definition accept : Env :=
  {| confirmAnswer := true; keygen := Some ("PRIVATE", "PUBLIC");
     unlinkError := None |}.
Definition decline : Env :=
  {| confirmAnswer := false; keygen := None; unlinkError := None |}.

Definition jane : Options :=
  {| opt_name := "Jane Doe"; opt_email := "jane@x.com"; opt_local := false |}.
Definition bob : Options :=
  {| opt_name := "Bob Roe"; opt_email := "bob@x.com"; opt_local := false |}.
Definition carol : Options :=
  {| opt_name := "Carol Poe"; opt_email := "carol@x.com"; opt_local := true |}.

(** A registry file whose [activeUser] is the id of no record. *)
Definition dangling : World Config :=
  set_configFile (Holds {| users := []; activeUser := Some 5;
                           globalConfig := None |}) fresh.

(** The fresh machine with no global git identity to read. *)
Definition bare : World Config :=
  set_gitGlobal {| user_name := Rejects; user_email := Rejects |} fresh.

End Gitmt.


(** * Properties *)

(** ** The monad and the top of the script *)

Module MachineProps.
Import JS Machine.

(** Symbolic execution of a handler: the monad and the primitives are
    unfolded, the projections of the state are computed, and the texts
    stay as they are. *)
Ltac exec :=
  repeat (unfold mbind, M_bind, mret, M_ret, skip, when, raise, tryCatch,
            readConfig, setConfig, getWorld, modifyWorld, consoleLog,
            consoleError, existsSync, writeFileSync, readFileSync,
            writeConfigFile, git_addConfig, git_getConfig, SSH_CONFIG_FILE,
            SSH_DIR in *;
          cbn beta iota zeta delta
            [config world stdout stderr fs configFile configWrites configDir
             homedir gitGlobal gitLocal set_stdout set_stderr set_fs
             set_configFile set_configWrites
             set_configDir set_gitGlobal set_gitLocal negb orb andb isNull
             user_name user_email readKey writeKey outcome thrown after
             fst snd] in *).

Section Top.
Context {C : Type}.

Lemma sameStores_refl (w : World C) : sameStores w w.
Proof. unfold sameStores. auto. Qed.

Lemma sameStores_trans (w1 w2 w3 : World C) :
  sameStores w1 w2 -> sameStores w2 w3 -> sameStores w1 w3.
Proof.
  unfold sameStores.
  intros (A1 & A2 & A3 & A4 & A5) (B1 & B2 & B3 & B4 & B5).
  repeat split; congruence.
Qed.

Lemma ensureDir_stores (w : World C) : sameStores w (ensureDir w).
Proof. unfold ensureDir. destruct (configDir w); unfold sameStores; auto. Qed.

Lemma ensureDir_stdout (w : World C) : stdout (ensureDir w) = stdout w.
Proof. unfold ensureDir. destruct (configDir w); reflexivity. Qed.

Lemma ensureDir_stderr (w : World C) : stderr (ensureDir w) = stderr w.
Proof. unfold ensureDir. destruct (configDir w); reflexivity. Qed.

Lemma ensureDir_configFile (w : World C) :
  configFile (ensureDir w) = configFile w.
Proof. apply ensureDir_stores. Qed.

Lemma ensureDir_homedir (w : World C) : homedir (ensureDir w) = homedir w.
Proof. unfold ensureDir. destruct (configDir w); reflexivity. Qed.

Lemma parses_or_not (f : RegFile C) : {f = Unparseable} + {f <> Unparseable}.
Proof. destruct f; [right | left | right]; congruence. Qed.

(** A run whose registry file is absent or parseable is the handler run
    on the loaded registry. *)
Lemma invoke_loaded (initial : C) (action : M C unit) (w : World C) :
  configFile w <> Unparseable ->
  invoke initial action w
  = outcome (action (mkProc (loaded initial w) (ensureDir w))).
Proof.
  intros Hf. unfold invoke, startup, loaded, ensureDir. exec.
  destruct (configDir w), (configFile w); exec; congruence.
Qed.

(** A run whose registry file does not parse stops at the top. *)
Lemma invoke_unparseable (initial : C) (action : M C unit) (w : World C) :
  configFile w = Unparseable ->
  invoke initial action w = mkOutcome (Some SyntaxError) (ensureDir w).
Proof.
  intros Hf. unfold invoke, startup, ensureDir. exec.
  destruct (configDir w); exec; rewrite Hf; reflexivity.
Qed.

(** [p'] differs from [p] by what was printed only. *)
Definition quiet (p p' : Proc C) : Prop :=
  config p' = config p /\ sameStores (world p) (world p').

Lemma quiet_refl (p : Proc C) : quiet p p.
Proof. split; [reflexivity | apply sameStores_refl]. Qed.

Lemma quiet_trans (p q r : Proc C) : quiet p q -> quiet q r -> quiet p r.
Proof.
  intros (A & HA) (B & HB). split; [congruence|].
  eapply sameStores_trans; eauto.
Qed.

Lemma forEach_quiet {A} (l : list A) (f : A -> M C unit) :
  (forall x p, exists p', f x p = Ret () p' /\ quiet p p') ->
  forall p, exists p', forEach l f p = Ret () p' /\ quiet p p'.
Proof.
  intros Hf. induction l as [|x l IH]; intros p; simpl.
  - exists p. split; [reflexivity | apply quiet_refl].
  - destruct (Hf x p) as (q & Hq & Hpq). destruct (IH q) as (r & Hr & Hqr).
    exists r. split; [|eapply quiet_trans; eauto].
    unfold mbind, M_bind. rewrite Hq. exact Hr.
Qed.

End Top.

Lemma strict_eq_spec (i : Z) (n : Num) : strict_eq i n = true <-> n = Int i.
Proof.
  destruct n as [|z]; simpl.
  - split; discriminate.
  - rewrite Z.eqb_eq. split; [intros ->; reflexivity | intros [= ->]; reflexivity].
Qed.

End MachineProps.

(** ** [src/unnamed/part_001] *)

Module Part001Props.
Import JS Machine MachineProps Part001.

Ltac exec1 :=
  repeat (unfold add, remove, change, current, list_, key, updateSSHConfig,
            setGitConfig, saveConfig, execSync_ssh_keygen, unlinkSync,
            notFound in *;
          exec;
          cbn beta iota zeta delta [users activeUser] in *).

(** One case split on the next test the execution is stuck on. *)
Ltac branch :=
  match goal with
  | |- context [bool_decide ?P] =>
      destruct (bool_decide P) eqn:?
  | |- context [match unlinkError ?e with _ => _ end] =>
      destruct (unlinkError e) eqn:?
  | |- context [match keygen ?e with _ => _ end] =>
      destruct (keygen e) as [[? ?]|] eqn:?
  | |- context [if confirmAnswer ?e then _ else _] =>
      destruct (confirmAnswer e) eqn:?
  | |- context [if falsy ?a then _ else _] =>
      destruct (falsy a) eqn:?
  | |- context [if strict_eq_opt ?a ?n then _ else _] =>
      destruct (strict_eq_opt a n) eqn:?
  | |- context [if (?a || ?b)%bool then _ else _] =>
      destruct (a || b)%bool eqn:?
  end.

(** *** What each handler does to the registry *)

Lemma add_effect (options : Options) (env : Env) (p : Proc Config) :
  match add options env p with
  | Ret _ p' =>
      config p' = added options (keyPathOf (world p) (opt_alias options)) (config p)
      /\ configFile (world p') = Holds (config p')
  | Raise e p' => e = ExecError /\ keygen env = None /\ p' = p
  end.
Proof.
  destruct p as [c w]. unfold added, keyPathOf. exec1.
  repeat (branch; exec1); auto.
Qed.

Lemma remove_effect (idArg : string) (env : Env) (p : Proc Config) :
  match list_find (fun u => strict_eq (id u) (parseInt idArg)) (users (config p)) with
  | None => remove idArg env p = Ret () (notFound (parseInt idArg) p)
  | Some (i, u) =>
      exists p', remove idArg env p = Ret () p'
        /\ config p' = removed i (parseInt idArg) (config p)
        /\ configFile (world p') = Holds (config p')
  end.
Proof.
  destruct p as [c w]. unfold removed. exec1.
  destruct (list_find _ _) as [[i u]|]; [|reflexivity].
  repeat (branch; exec1); eexists; (split; [reflexivity|]); exec; auto.
Qed.

Lemma change_effect (idArg : string) (p : Proc Config) :
  match find (fun u => strict_eq (id u) (parseInt idArg)) (users (config p)) with
  | None => change idArg p = Ret () (notFound (parseInt idArg) p)
  | Some u =>
      exists p', change idArg p = Ret () p'
        /\ config p' = {| users := users (config p);
                          activeUser := stored (parseInt idArg) |}
        /\ configFile (world p') = Holds (config p')
  end.
Proof.
  destruct p as [c w]. exec1.
  destruct (find _ _); [|reflexivity].
  eexists; (split; [reflexivity|]); exec; auto.
Qed.


(** *** Read-only handlers *)

Lemma list_frame (p : Proc Config) :
  exists p', list_ p = Ret () p' /\ quiet p p'.
Proof.
  exec1. destruct (length (users (config p)) =? 0)%nat.
  - eexists. split; [reflexivity|]. unfold quiet, sameStores. exec. auto 10.
  - match goal with |- context [forEach ?l ?f ?q] =>
      destruct (forEach_quiet l f) with (p := q) as (r & Hr & Hq)
    end.
    + intros x q. eexists. split; [reflexivity|].
      unfold quiet, sameStores. exec. auto 10.
    + exists r. split; [exact Hr|].
      eapply quiet_trans; [|exact Hq]. unfold quiet, sameStores. exec. auto 10.
Qed.

Lemma current_frame (p : Proc Config) :
  match current p with
  | Ret _ p' => quiet p p'
  | Raise _ p' => p' = p
  end.
Proof.
  exec1. destruct (falsy _); [|destruct (find _ _)];
    unfold quiet, sameStores; exec; auto 10.
Qed.

Lemma key_frame (idArg : string) (p : Proc Config) :
  exists p', key idArg p = Ret () p' /\ quiet p p'.
Proof.
  exec1. destruct (find _ _) as [u|].
  - destruct (fs (world p) !! (sshKeyPath u +:+ ".pub")) eqn:E.
    + rewrite bool_decide_eq_true_2 by eauto. exec. rewrite E.
      eexists. split; [reflexivity|]. unfold quiet, sameStores. exec. auto 10.
    + rewrite bool_decide_eq_false_2 by (intros [? ?]; congruence). exec.
      eexists. split; [reflexivity|]. unfold quiet, sameStores. exec. auto 10.
  - eexists. split; [reflexivity|]. unfold quiet, sameStores. exec. auto 10.
Qed.

(** *** One run, seen from the registry file *)

Lemma run_loaded (cmd : Command) (env : Env) (w : World Config) :
  configFile w <> Unparseable ->
  run cmd env w = outcome (handler cmd env (mkProc (registry w) (ensureDir w))).
Proof. intros H. unfold run. rewrite invoke_loaded by exact H. reflexivity. Qed.

Lemma run_unparseable (cmd : Command) (env : Env) (w : World Config) :
  configFile w = Unparseable ->
  run cmd env w = mkOutcome (Some SyntaxError) (ensureDir w).
Proof. intros H. unfold run. apply invoke_unparseable, H. Qed.

Lemma registry_same (w w' : World Config) :
  configFile w' = configFile w -> registry w' = registry w.
Proof. unfold registry. intros ->. reflexivity. Qed.

Lemma registry_holds (w : World Config) (c : Config) :
  configFile w = Holds c -> registry w = c.
Proof. unfold registry. intros ->. reflexivity. Qed.

Lemma run_readonly (cmd : Command) (env : Env) (w : World Config) :
  isReadOnly cmd = true -> sameStores w (after (run cmd env w)).
Proof.
  intros Hro. destruct (parses_or_not (configFile w)) as [Hu|Hp].
  - rewrite run_unparseable by exact Hu. apply ensureDir_stores.
  - rewrite run_loaded by exact Hp.
    assert (Hq : forall r : Res Config unit,
               (match r with
                | Ret _ p' | Raise _ p' =>
                    sameStores (ensureDir w) (world p')
                end) -> sameStores w (after (outcome r))).
    { intros r Hr. pose proof (ensureDir_stores w) as E.
      destruct r as [a q|e q]; exec; eapply sameStores_trans; eauto. }
    apply Hq. destruct cmd; try discriminate; simpl.
    + pose proof (current_frame (mkProc (registry w) (ensureDir w))) as H.
      destruct (current _) as [a q|e q]; [apply H | subst q; exec].
      apply sameStores_refl.
    + destruct (list_frame (mkProc (registry w) (ensureDir w))) as (q & -> & H).
      apply H.
    + destruct (key_frame idArg (mkProc (registry w) (ensureDir w))) as (q & -> & H).
      apply H.
Qed.

(** What a run leaves in the registry file, by command. *)
Lemma run_registry (cmd : Command) (env : Env) (w : World Config) :
  let c := registry w in
  let c' := registry (after (run cmd env w)) in
  match cmd with
  | Add options =>
      c' = c \/ c' = added options (keyPathOf (ensureDir w) (opt_alias options)) c
  | Remove idArg =>
      c' = c \/
      exists i u,
        list_find (fun u => strict_eq (id u) (parseInt idArg)) (users c) = Some (i, u)
        /\ c' = removed i (parseInt idArg) c
  | Change idArg =>
      c' = c \/
      exists u,
        find (fun u => strict_eq (id u) (parseInt idArg)) (users c) = Some u
        /\ c' = {| users := users c; activeUser := stored (parseInt idArg) |}
  | _ => c' = c
  end.
Proof.
  intros c c'. subst c c'.
  destruct (parses_or_not (configFile w)) as [Hu|Hp].
  { rewrite run_unparseable by exact Hu. exec.
    rewrite (registry_same w (ensureDir w)) by apply ensureDir_configFile.
    destruct cmd; auto. }
  destruct cmd as [options| |idArg|idArg| |idArg];
    try (apply registry_same, (run_readonly _ env w); reflexivity).
  - rewrite run_loaded by exact Hp. simpl.
    pose proof (add_effect options env (mkProc (registry w) (ensureDir w))) as H.
    destruct (add _ _ _) as [a q|e q]; exec.
    + right. destruct H as (H1 & H2). rewrite (registry_holds _ _ H2). exact H1.
    + left. destruct H as (_ & _ & ->). exec.
      apply registry_same, ensureDir_configFile.
  - rewrite run_loaded by exact Hp. simpl.
    pose proof (remove_effect idArg env (mkProc (registry w) (ensureDir w))) as H.
    exec. destruct (list_find _ _) as [[i u]|].
    + right. destruct H as (q & -> & H1 & H2). exists i, u. split; [reflexivity|].
      exec. rewrite (registry_holds _ _ H2). exact H1.
    + left. rewrite H. exec1. apply registry_same, ensureDir_configFile.
  - rewrite run_loaded by exact Hp. simpl.
    pose proof (change_effect idArg (mkProc (registry w) (ensureDir w))) as H.
    exec. destruct (find _ _) as [u|].
    + right. destruct H as (q & -> & H1 & H2). exists u. split; [reflexivity|].
      exec. rewrite (registry_holds _ _ H2). exact H1.
    + left. rewrite H. exec1. apply registry_same, ensureDir_configFile.
Qed.

(** *** The registry invariants *)

Lemma elem_of_delete_other {A} (l : list A) (i : nat) (x y : A) :
  l !! i = Some y -> x ∈ l -> x <> y -> x ∈ delete i l.
Proof.
  intros Hi Hx Hne. rewrite (delete_Permutation l i y Hi) in Hx.
  apply elem_of_cons in Hx as [->|Hx]; [contradiction | exact Hx].
Qed.

Lemma find_elem_of {A} (f : A -> bool) (l : list A) (x : A) :
  find f l = Some x -> x ∈ l /\ f x = true.
Proof.
  intros H. apply find_some in H as [H1 H2].
  split; [apply list_elem_of_In, H1 | exact H2].
Qed.

Lemma added_activeValid (options : Options) (path : string) (c : Config) :
  activeValid c -> activeValid (added options path c).
Proof.
  unfold activeValid, added. simpl. intros H. destruct (falsy (activeUser c)).
  - eexists. split; [apply elem_of_app; right; apply list_elem_of_here|].
    reflexivity.
  - destruct (activeUser c) as [a|]; [|exact I].
    destruct H as (u & Hu & Ha). exists u. split; [|exact Ha].
    apply elem_of_app. left. exact Hu.
Qed.

Lemma removed_activeValid (i : nat) (u : User) (n : Num) (c : Config) :
  list_find (fun u => strict_eq (id u) n) (users c) = Some (i, u) ->
  activeValid c -> activeValid (removed i n c).
Proof.
  intros Hf H. apply list_find_Some in Hf as (Hi & Hu & _).
  apply Is_true_true, strict_eq_spec in Hu.
  unfold activeValid, removed in *. simpl.
  destruct (strict_eq_opt (activeUser c) n) eqn:E; [exact I|].
  destruct (activeUser c) as [a|]; [|exact I].
  destruct H as (v & Hv & Ha). exists v. split; [|exact Ha].
  apply (elem_of_delete_other _ _ _ u Hi Hv).
  intros ->. simpl in E. subst n. simpl in E. apply Z.eqb_neq in E. congruence.
Qed.

Lemma changed_activeValid (u : User) (n : Num) (c : Config) :
  find (fun u => strict_eq (id u) n) (users c) = Some u ->
  activeValid {| users := users c; activeUser := stored n |}.
Proof.
  intros Hf. apply find_elem_of in Hf as (Hu & Hn).
  apply strict_eq_spec in Hn. subst n. unfold activeValid. simpl.
  exists u. auto.
Qed.

Lemma run_activeValid (cmd : Command) (env : Env) (w : World Config) :
  activeValid (registry w) -> activeValid (registry (after (run cmd env w))).
Proof.
  intros H. pose proof (run_registry cmd env w) as R. simpl in R.
  destruct cmd; try (rewrite R; exact H).
  - destruct R as [->| ->]; [exact H | apply added_activeValid, H].
  - destruct R as [->|(i & u & Hf & ->)]; [exact H|].
    eapply removed_activeValid; eauto.
  - destruct R as [->|(u & Hf & ->)]; [exact H|].
    eapply changed_activeValid; eauto.
Qed.

(** C3.  Whatever commands are run, and in particular whatever [add],
    [remove] and [change] commands, from a machine whose registry has an
    [activeUser] that is null or the id of one of its records, the
    registry every run leaves has an [activeUser] that is null or the id
    of one of its records. *)
Theorem active_user_stays_valid (script : list (Command * Env)) (w : World Config) :
  activeValid (registry w) -> activeValid (registry (runs script w)).
Proof.
  revert w. induction script as [|[cmd env] script IH]; intros w H; simpl.
  - exact H.
  - apply IH, run_activeValid, H.
Qed.

Lemma active_user_stays_valid_witness :
  activeValid (registry fresh)
  /\ activeValid (registry (runs [(Add jane, accept); (Add bob, decline);
                                  (Change "2", decline); (Remove "2", accept)]
                                 fresh)).
Proof.
  split; [exact I | apply active_user_stays_valid; exact I].
Defined.

Lemma added_unique (options : Options) (path : string) (c : Config) :
  opt_alias options ∉ alias <$> users c ->
  uniqueAliases c -> uniqueAliases (added options path c).
Proof.
  unfold uniqueAliases, added. simpl. intros Hfresh H.
  rewrite fmap_app. apply NoDup_app. split; [exact H|]. split.
  - intros x Hx Hx'. simpl in Hx'. apply list_elem_of_singleton in Hx'.
    subst x. contradiction.
  - simpl. apply NoDup_singleton.
Qed.

Lemma removed_unique (i : nat) (n : Num) (c : Config) :
  uniqueAliases c -> uniqueAliases (removed i n c).
Proof.
  unfold uniqueAliases, removed. simpl. intros H.
  rewrite list_fmap_delete. exact (sublist_NoDup _ _ H (sublist_delete _ i)).
Qed.

Lemma run_unique (cmd : Command) (env : Env) (w : World Config) :
  match cmd with
  | Add options => opt_alias options ∉ alias <$> users (registry w)
  | _ => True
  end ->
  uniqueAliases (registry w) ->
  uniqueAliases (registry (after (run cmd env w))).
Proof.
  intros Hfresh H. pose proof (run_registry cmd env w) as R. simpl in R.
  destruct cmd; try (rewrite R; exact H).
  - destruct R as [->| ->]; [exact H | apply added_unique; assumption].
  - destruct R as [->|(i & u & Hf & ->)]; [exact H | apply removed_unique, H].
  - destruct R as [->|(u & Hf & ->)]; exact H.
Qed.

Lemma runs_unique (script : list (Command * Env)) (w : World Config) :
  freshAliases script w ->
  uniqueAliases (registry w) -> uniqueAliases (registry (runs script w)).
Proof.
  revert w. induction script as [|[cmd env] script IH]; intros w Hf H; simpl.
  - exact H.
  - destruct Hf as [Hf1 Hf2]. apply IH; [exact Hf2|].
    apply run_unique; assumption.
Qed.

(** C1, as amended.  From a machine whose registry has no record, after
    any sequence of [add] and [remove] commands in which every [add]
    brings an alias that no record of the registry carries at that time,
    no two records of the registry share an alias. *)
Theorem aliases_unique_when_fresh (script : list (Command * Env)) (w : World Config) :
  users (registry w) = [] ->
  Forall (fun ce => isAddRemove (fst ce) = true) script ->
  freshAliases script w ->
  uniqueAliases (registry (runs script w)).
Proof.
  intros Hempty _ Hfresh. apply runs_unique; [exact Hfresh|].
  unfold uniqueAliases. rewrite Hempty. apply NoDup_nil_2.
Qed.

Lemma aliases_unique_when_fresh_witness :
  uniqueAliases (registry (runs [(Add jane, accept); (Add bob, decline);
                                 (Remove "1", accept); (Add carol, accept)]
                                fresh)).
Proof.
  apply aliases_unique_when_fresh.
  - reflexivity.
  - repeat constructor.
  - vm_compute. repeat split; intros H; repeat (inversion H; subst; clear H;
      match goal with H' : _ ∈ _ |- _ => rename H' into H | _ => idtac end).
Defined.

(** C1, as stated, fails: [add] never compares the alias it is given with
    the aliases of the registry, so adding the same alias twice leaves two
    records that share it. *)
Lemma aliases_unique_counterexample :
  users (registry fresh) = []
  /\ Forall (fun ce => isAddRemove (fst ce) = true)
            [(Add jane, decline); (Add jane, decline)]
  /\ alias <$> users (registry (runs [(Add jane, decline); (Add jane, decline)]
                                     fresh)) = ["jane"; "jane"]
  /\ ~ uniqueAliases (registry (runs [(Add jane, decline); (Add jane, decline)]
                                     fresh)).
Proof.
  split; [reflexivity|]. split; [repeat constructor|].
  assert (E : alias <$> users (registry (runs [(Add jane, decline);
                                               (Add jane, decline)] fresh))
              = ["jane"; "jane"]) by (vm_compute; reflexivity).
  split; [exact E|]. unfold uniqueAliases. rewrite E. intros H.
  apply NoDup_cons in H as [H _]. apply H, list_elem_of_here.
Qed.

(** *** The not-found path *)

Lemma list_find_unmatched (n : Num) (l : list User) :
  (forall u, u ∈ l -> Int (id u) <> n) ->
  list_find (fun u => strict_eq (id u) n) l = None.
Proof.
  intros H. apply list_find_None, Forall_forall. intros u Hu Hs.
  apply Is_true_true, strict_eq_spec in Hs. apply (H u Hu). congruence.
Qed.

Lemma find_unmatched (n : Num) (l : list User) :
  (forall u, u ∈ l -> Int (id u) <> n) ->
  find (fun u => strict_eq (id u) n) l = None.
Proof.
  intros H. destruct (find _ l) as [u|] eqn:E; [|reflexivity].
  apply find_elem_of in E as (Hu & Hs). apply strict_eq_spec in Hs.
  exfalso. apply (H u Hu). congruence.
Qed.

Lemma remove_not_found (idArg : string) (env : Env) (p : Proc Config) :
  (forall u, u ∈ users (config p) -> Int (id u) <> parseInt idArg) ->
  remove idArg env p = Ret () (notFound (parseInt idArg) p).
Proof.
  intros H. pose proof (remove_effect idArg env p) as R.
  rewrite (list_find_unmatched _ _ H) in R. exact R.
Qed.

Lemma change_not_found (idArg : string) (p : Proc Config) :
  (forall u, u ∈ users (config p) -> Int (id u) <> parseInt idArg) ->
  change idArg p = Ret () (notFound (parseInt idArg) p).
Proof.
  intros H. pose proof (change_effect idArg p) as R.
  rewrite (find_unmatched _ _ H) in R. exact R.
Qed.

Lemma key_not_found (idArg : string) (p : Proc Config) :
  (forall u, u ∈ users (config p) -> Int (id u) <> parseInt idArg) ->
  key idArg p = Ret () (notFound (parseInt idArg) p).
Proof.
  intros H. unfold key. exec. rewrite (find_unmatched _ _ H). reflexivity.
Qed.

(** What a run that ends in [notFound] leaves. *)
Lemma run_not_found (cmd : Command) (env : Env) (w : World Config) (n : Num) :
  configFile w <> Unparseable ->
  handler cmd env (mkProc (registry w) (ensureDir w))
  = Ret () (notFound n (mkProc (registry w) (ensureDir w))) ->
  thrown (run cmd env w) = None
  /\ sameStores w (after (run cmd env w))
  /\ stdout (after (run cmd env w))
     = (stdout w ++ ["No user found with ID " +:+ Num_to_string n])%list
  /\ stderr (after (run cmd env w)) = stderr w.
Proof.
  intros Hp Hh. rewrite run_loaded by exact Hp. rewrite Hh.
  unfold notFound. exec.
  rewrite ensureDir_stdout, ensureDir_stderr.
  pose proof (ensureDir_stores w) as E.
  unfold sameStores in *. exec. auto 10.
Qed.

(** C7.  When the id given to [remove] is the id of no record of the
    registry, the handler returns without an exception and leaves the
    registry in memory as it was; the run leaves the registry file, the
    files of [~/.ssh] and the git configuration as they were (nothing is
    persisted), and prints the not-found message. *)
Theorem remove_unknown_id_changes_nothing
    (idArg : string) (env : Env) (w : World Config) :
  configFile w <> Unparseable ->
  (forall u, u ∈ users (registry w) -> Int (id u) <> parseInt idArg) ->
  (exists p', remove idArg env (mkProc (registry w) (ensureDir w)) = Ret () p'
              /\ config p' = registry w)
  /\ thrown (run (Remove idArg) env w) = None
  /\ sameStores w (after (run (Remove idArg) env w))
  /\ stdout (after (run (Remove idArg) env w))
     = (stdout w ++ ["No user found with ID " +:+ Num_to_string (parseInt idArg)])%list
  /\ stderr (after (run (Remove idArg) env w)) = stderr w.
Proof.
  intros Hp Hn.
  assert (Hh : remove idArg env (mkProc (registry w) (ensureDir w))
               = Ret () (notFound (parseInt idArg)
                                  (mkProc (registry w) (ensureDir w))))
    by (apply remove_not_found; exact Hn).
  split.
  - eexists. split; [exact Hh | reflexivity].
  - apply run_not_found; assumption.
Qed.

(** *** [parseInt] on an argument that does not start like a number *)

Lemma digitValue_not_digit (c : ascii) :
  isDigit c = false ->
  match digitValue c with Some d => 10 <= d | None => True end.
Proof.
  unfold isDigit, digitValue. intros H. rewrite H.
  destruct (Nat.leb_spec 97 (nat_of_ascii c)),
           (Nat.leb_spec (nat_of_ascii c) 122),
           (Nat.leb_spec 65 (nat_of_ascii c)),
           (Nat.leb_spec (nat_of_ascii c) 90);
    cbn [andb]; try exact I; lia.
Qed.

Lemma digitsPrefix_not_digit (c : ascii) (s : list ascii) :
  isDigit c = false -> digitsPrefix 10 (c :: s) = [].
Proof.
  intros H. apply digitValue_not_digit in H. cbn [digitsPrefix].
  destruct (digitValue c) as [d|]; [|reflexivity].
  destruct (Z.ltb_spec d 10); [lia | reflexivity].
Qed.

Lemma stripPrefix_not_digit (c : ascii) (s : list ascii) :
  isDigit c = false -> stripPrefix (c :: s) = (10, c :: s).
Proof.
  intros H. destruct s as [|d s]; [reflexivity|]. cbn [stripPrefix].
  destruct (Ascii.eqb_spec c "0") as [->|_]; [discriminate H | reflexivity].
Qed.

Lemma parseInt_no_leading_digit (idArg : string) :
  leadingDigit idArg = false -> parseInt idArg = NaN.
Proof.
  unfold leadingDigit, parseInt.
  destruct (stripSign _) as [sign rest]. simpl.
  destruct rest as [|c rest]; [reflexivity|]. intros H.
  rewrite (stripPrefix_not_digit c rest H).
  rewrite (digitsPrefix_not_digit c rest H). reflexivity.
Qed.

(** C10, as amended.  When the id argument, after leading white space and
    one optional sign, does not go on with a decimal digit, the parsed id
    is [NaN]; [remove], [change] and [key] then take the not-found path:
    the run ends without an exception, prints [No user found with ID NaN]
    and leaves the registry file, the files of [~/.ssh] and the git
    configuration as they were. *)
Theorem id_without_leading_digit_not_found
    (idArg : string) (cmd : Command) (env : Env) (w : World Config) :
  leadingDigit idArg = false ->
  cmd = Remove idArg \/ cmd = Change idArg \/ cmd = Key idArg ->
  configFile w <> Unparseable ->
  parseInt idArg = NaN
  /\ thrown (run cmd env w) = None
  /\ sameStores w (after (run cmd env w))
  /\ stdout (after (run cmd env w)) = (stdout w ++ ["No user found with ID NaN"])%list
  /\ stderr (after (run cmd env w)) = stderr w.
Proof.
  intros Hd Hcmd Hp. pose proof (parseInt_no_leading_digit idArg Hd) as HN.
  split; [exact HN|].
  assert (Hn : forall u, u ∈ users (registry w) -> Int (id u) <> parseInt idArg)
    by (intros u _; rewrite HN; discriminate).
  change "No user found with ID NaN"
    with ("No user found with ID " +:+ Num_to_string NaN).
  rewrite <- HN.
  apply run_not_found; [exact Hp|].
  destruct Hcmd as [->|[->| ->]]; simpl.
  - apply remove_not_found, Hn.
  - apply change_not_found, Hn.
  - apply key_not_found, Hn.
Qed.

Lemma id_without_leading_digit_not_found_witness :
  parseInt "abc" = NaN
  /\ thrown (run (Remove "abc") accept fresh) = None
  /\ sameStores fresh (after (run (Remove "abc") accept fresh))
  /\ stdout (after (run (Remove "abc") accept fresh))
     = (stdout fresh ++ ["No user found with ID NaN"])%list
  /\ stderr (after (run (Remove "abc") accept fresh)) = stderr fresh.
Proof.
  apply id_without_leading_digit_not_found.
  - reflexivity.
  - left. reflexivity.
  - discriminate.
Defined.

(** C10, as stated, fails: [parseInt] reads the longest numeric prefix, so
    the argument [1abc], which is no number, parses to 1 and [remove]
    deletes the record with id 1. *)
Lemma non_numeric_id_counterexample :
  let w := after (run (Add jane) decline fresh) in
  isNumeral "1abc" = false
  /\ parseInt "1abc" = Int 1
  /\ id <$> users (registry w) = [1]
  /\ users (registry (after (run (Remove "1abc") decline w))) = []
  /\ stdout (after (run (Remove "1abc") decline w))
     = (stdout w ++ ["Removed user Jane Doe (ID: 1)"])%list.
Proof. vm_compute. repeat split; reflexivity. Qed.

Lemma remove_unknown_id_changes_nothing_witness :
  let w := after (run (Add jane) decline fresh) in
  (exists p', remove "7" accept (mkProc (registry w) (ensureDir w)) = Ret () p'
              /\ config p' = registry w)
  /\ thrown (run (Remove "7") accept w) = None
  /\ sameStores w (after (run (Remove "7") accept w))
  /\ stdout (after (run (Remove "7") accept w))
     = (stdout w ++ ["No user found with ID " +:+ Num_to_string (parseInt "7")])%list
  /\ stderr (after (run (Remove "7") accept w)) = stderr w.
Proof.
  intros w. apply remove_unknown_id_changes_nothing.
  - discriminate.
  - intros u Hu. vm_compute in Hu.
    apply list_elem_of_singleton in Hu. subst u. discriminate.
Defined.

(** *** The SSH client configuration at concrete inputs *)

(** C2, at its failing input.  On a machine where the script has never
    run, [add --name "Jane Doe" --alias jane] with the offer of a key
    declined leaves no stanza [Host github.com-jane] and one stanza
    [Host github.com-Jane Doe]: the call that always runs passes
    [options.name] where the call of the key branch passes
    [options.alias].  With the key generated and then [remove 1] with the
    removal of the keys accepted, the stanza [Host github.com-jane] is
    still in the file. *)
Theorem add_writes_stanza_for_name :
  let w := after (run (Add jane) decline fresh) in
  let w' := runs [(Add jane, accept); (Remove "1", accept)] fresh in
  thrown (run (Add jane) decline fresh) = None
  /\ alias <$> users (registry w) = ["jane"]
  /\ stanzaCount "jane" (sshConfigOf w) = 0%nat
  /\ stanzaCount "Jane Doe" (sshConfigOf w) = 1%nat
  /\ users (registry w') = []
  /\ stanzaCount "jane" (sshConfigOf w') = 1%nat.
Proof. vm_compute. repeat split; reflexivity. Qed.

(** C5, at its failing input.  The file is what [add] itself writes for
    the alias [jane] into an empty configuration: the stanza starts the
    file, no line feed comes before its header, and the expression, which
    starts with a line feed, does not match it; the removal of [jane]
    leaves the file as it was.  And the header is matched as a prefix:
    the removal of the alias [jan] deletes the stanza of [jane] that
    follows a comment line. *)
Theorem removal_misses_first_stanza :
  let p := mkProc initialConfig (withSshConfig janeStanza fresh) in
  let q := mkProc initialConfig
                  (withSshConfig ("# keys" +:+ nl +:+ janeStanza) fresh) in
  stanzaCount "jane" janeStanza = 1%nat
  /\ sshConfigOf (after (outcome (updateSSHConfig "jane" "" true p))) = janeStanza
  /\ stanzaCount "jane" (sshConfigOf (world q)) = 1%nat
  /\ sshConfigOf (after (outcome (updateSSHConfig "jan" "" true q)))
     = "# keys" +:+ nl.
Proof. vm_compute. repeat split; reflexivity. Qed.

End Part001Props.

(** ** [src/bin/gitmt.js] *)

Module GitmtProps.
Import JS Machine MachineProps Gitmt.

Ltac exec2 :=
  repeat (unfold add, remove, change, current, list_, global, key,
            setGitConfig, saveGlobalGitConfig, saveConfig,
            execSync_ssh_keygen, unlinkSync, notFound, readKey, gitAt in *;
          exec;
          cbn beta iota zeta delta [users activeUser globalConfig] in *).

Ltac branch2 :=
  match goal with
  | |- context [bool_decide ?P] =>
      destruct (bool_decide P) eqn:?
  | |- context [match unlinkError ?e with _ => _ end] =>
      destruct (unlinkError e) eqn:?
  | |- context [match keygen ?e with _ => _ end] =>
      destruct (keygen e) as [[? ?]|] eqn:?
  | |- context [match user_name ?g with _ => _ end] =>
      destruct (user_name g) eqn:?
  | |- context [match user_email ?g with _ => _ end] =>
      destruct (user_email g) eqn:?
  | |- context [if confirmAnswer ?e then _ else _] =>
      destruct (confirmAnswer e) eqn:?
  | |- context [if falsy ?a then _ else _] =>
      destruct (falsy a) eqn:?
  | |- context [if strict_eq_opt ?a ?n then _ else _] =>
      destruct (strict_eq_opt a n) eqn:?
  | |- context [if (?a || ?b)%bool then _ else _] =>
      destruct (a || b)%bool eqn:?
  end.

(** *** The snapshot of the global git identity *)



Lemma setGitConfig_keeps_snapshot
    (name email : string) (scope : Scope) (p : Proc Config) (g : GlobalConfig) :
  globalConfig (config p) = Some g ->
  exists p',
    setGitConfig name email scope p = Ret () p'
    /\ config p' = config p
    /\ configFile (world p') = configFile (world p).
Proof.
  destruct p as [[us au gc] w]. simpl. intros ->. exec2.
  eexists. split; [reflexivity|]. destruct scope; exec2; auto.
Qed.

(** *** What each handler does to the registry *)

Lemma gitmt_add_effect (options : Options) (env : Env) (p : Proc Config) :
  match add options env p with
  | Ret _ p' =>
      users (config p')
      = (users (config p)
         ++ [newUser options (keyPathOf (world p) (opt_name options)) (config p)])%list
      /\ configFile (world p') = Holds (config p')
  | Raise e p' => e = ExecError /\ keygen env = None /\ p' = p
  end.
Proof.
  destruct p as [[us au gc] w]. unfold newUser, keyPathOf. exec2.
  destruct gc; exec2; repeat (branch2; exec2); auto.
Qed.

Lemma gitmt_list_frame (p : Proc Config) :
  exists p', list_ p = Ret () p' /\ quiet p p'.
Proof.
  exec2. destruct (length (users (config p)) =? 0)%nat.
  - eexists. split; [reflexivity|]. unfold quiet, sameStores. exec. auto 10.
  - match goal with |- context [forEach ?l ?f ?q] =>
      destruct (forEach_quiet l f) with (p := q) as (r & Hr & Hq)
    end.
    + intros x q. eexists. split; [reflexivity|].
      unfold quiet, sameStores. exec. auto 10.
    + exists r. split; [exact Hr|].
      eapply quiet_trans; [|exact Hq]. unfold quiet, sameStores. exec. auto 10.
Qed.

Lemma gitmt_current_frame (p : Proc Config) :
  match current p with
  | Ret _ p' => quiet p p'
  | Raise _ p' => p' = p
  end.
Proof.
  exec2. destruct (falsy _); [|destruct (find _ _)];
    unfold quiet, sameStores; exec; auto 10.
Qed.

Lemma gitmt_global_frame (p : Proc Config) :
  exists p', global p = Ret () p' /\ quiet p p'.
Proof.
  exec2. destruct (globalConfig (config p)); exec;
    (eexists; split; [reflexivity|]); unfold quiet, sameStores; exec; auto 10.
Qed.

Lemma gitmt_key_frame (idArg : string) (p : Proc Config) :
  exists p', key idArg p = Ret () p' /\ quiet p p'.
Proof.
  exec2. destruct (find _ _) as [u|].
  - destruct (fs (world p) !! (sshKeyPath u +:+ ".pub")) eqn:E.
    + rewrite bool_decide_eq_true_2 by eauto. exec. rewrite E.
      eexists. split; [reflexivity|]. unfold quiet, sameStores. exec. auto 10.
    + rewrite bool_decide_eq_false_2 by (intros [? ?]; congruence). exec.
      eexists. split; [reflexivity|]. unfold quiet, sameStores. exec. auto 10.
  - eexists. split; [reflexivity|]. unfold quiet, sameStores. exec. auto 10.
Qed.

(** *** One run, seen from the registry file *)

Lemma gitmt_run_loaded (cmd : Command) (env : Env) (w : World Config) :
  configFile w <> Unparseable ->
  run cmd env w = outcome (handler cmd env (mkProc (registry w) (ensureDir w))).
Proof. intros H. unfold run. rewrite invoke_loaded by exact H. reflexivity. Qed.

Lemma gitmt_run_unparseable (cmd : Command) (env : Env) (w : World Config) :
  configFile w = Unparseable ->
  run cmd env w = mkOutcome (Some SyntaxError) (ensureDir w).
Proof. intros H. unfold run. apply invoke_unparseable, H. Qed.



(** A read-only handler ends, with or without an exception, in a state
    that differs from the one it started in by what was printed only. *)
Lemma readonly_handler (cmd : Command) (env : Env) (p : Proc Config) :
  isReadOnly cmd = true ->
  match handler cmd env p with
  | Ret _ p' | Raise _ p' => quiet p p'
  end.
Proof.
  intros Hro. destruct cmd; try discriminate; simpl.
  - pose proof (gitmt_current_frame p) as H.
    destruct (current p) as [a q|e q]; [exact H | subst q; apply quiet_refl].
  - destruct (gitmt_list_frame p) as (q & -> & H). exact H.
  - destruct (gitmt_global_frame p) as (q & -> & H). exact H.
  - destruct (gitmt_key_frame idArg p) as (q & -> & H). exact H.
Qed.

Lemma gitmt_run_readonly (cmd : Command) (env : Env) (w : World Config) :
  isReadOnly cmd = true -> sameStores w (after (run cmd env w)).
Proof.
  intros Hro. destruct (parses_or_not (configFile w)) as [Hu|Hp].
  - rewrite gitmt_run_unparseable by exact Hu. apply ensureDir_stores.
  - rewrite gitmt_run_loaded by exact Hp.
    pose proof (readonly_handler cmd env (mkProc (registry w) (ensureDir w)) Hro) as H.
    pose proof (ensureDir_stores w) as E.
    destruct (handler _ _ _) as [a q|e q]; exec;
      destruct H as (_ & H); exec; eapply sameStores_trans; eauto.
Qed.

(** *** The snapshot along the runs *)





(** After a soft failure the registry still holds no snapshot, so the
    next overwrite takes one: it then holds the identity the script wrote
    at the first overwrite. *)
Example snapshot_after_soft_failure :
  let w := after (run (Add jane) decline bare) in
  globalConfig (registry w) = None
  /\ stdout w = ["No global git config found"; "Added user Jane Doe (ID: 1)"]
  /\ gitGlobal w = identity (Some "Jane Doe") (Some "jane@x.com")
  /\ globalConfig (registry (after (run (Change "1" false) decline w)))
     = Some {| g_name := Some "Jane Doe"; g_email := Some "jane@x.com" |}.
Proof. vm_compute. repeat split; reflexivity. Qed.


End GitmtProps.

(** ** Properties the two revisions share *)

Module SharedProps.
Import JS Machine MachineProps.

(** *** The id [add] assigns *)

Lemma part001_add_id (options : Part001.Options) (env : Env)
    (p : Proc Part001.Config) :
  match Part001.add options env p with
  | Ret _ p' =>
      exists u,
        Part001.users (config p') = (Part001.users (config p) ++ [u])%list
        /\ Part001.id u = Z.of_nat (length (Part001.users (config p))) + 1
        /\ configFile (world p') = Holds (config p')
  | Raise e p' => keygen env = None /\ p' = p
  end.
Proof.
  pose proof (Part001Props.add_effect options env p) as H.
  destruct (Part001.add options env p) as [a q|e q].
  - destruct H as (H1 & H2). rewrite H1. unfold Part001.added. simpl.
    eexists. split; [reflexivity|]. split; [reflexivity|].
    rewrite H2, H1. reflexivity.
  - destruct H as (_ & H1 & H2). auto.
Qed.

Lemma gitmt_add_id (options : Gitmt.Options) (env : Env)
    (p : Proc Gitmt.Config) :
  match Gitmt.add options env p with
  | Ret _ p' =>
      exists u,
        Gitmt.users (config p') = (Gitmt.users (config p) ++ [u])%list
        /\ Gitmt.id u = Z.of_nat (length (Gitmt.users (config p))) + 1
        /\ configFile (world p') = Holds (config p')
  | Raise e p' => keygen env = None /\ p' = p
  end.
Proof.
  pose proof (GitmtProps.gitmt_add_effect options env p) as H.
  destruct (Gitmt.add options env p) as [a q|e q].
  - destruct H as (H1 & H2). rewrite H1. unfold Gitmt.newUser.
    eexists. split; [reflexivity|]. split; [reflexivity | exact H2].
  - destruct H as (_ & H1 & H2). auto.
Qed.

(** C6.  In both revisions, an [add] that completes appends one record
    whose id is the number of records plus one, and persists it; [add]
    fails to complete only when [ssh-keygen] fails, and then changes
    nothing.  The id is not one more than the largest id: after two adds,
    the removal of record 1 and a third add, the two records of the
    registry both have id 2. *)
Theorem next_id_is_count_plus_one :
  (forall (options : Part001.Options) (env : Env) (p : Proc Part001.Config),
      match Part001.add options env p with
      | Ret _ p' =>
          exists u,
            Part001.users (config p') = (Part001.users (config p) ++ [u])%list
            /\ Part001.id u = Z.of_nat (length (Part001.users (config p))) + 1
            /\ configFile (world p') = Holds (config p')
      | Raise e p' => keygen env = None /\ p' = p
      end)
  /\ (forall (options : Gitmt.Options) (env : Env) (p : Proc Gitmt.Config),
      match Gitmt.add options env p with
      | Ret _ p' =>
          exists u,
            Gitmt.users (config p') = (Gitmt.users (config p) ++ [u])%list
            /\ Gitmt.id u = Z.of_nat (length (Gitmt.users (config p))) + 1
            /\ configFile (world p') = Holds (config p')
      | Raise e p' => keygen env = None /\ p' = p
      end)
  /\ Part001.id <$> Part001.users (Part001.registry (Part001.runs
       [(Part001.Add Part001.jane, Part001.accept);
        (Part001.Add Part001.bob, Part001.accept);
        (Part001.Remove "1", Part001.decline);
        (Part001.Add Part001.carol, Part001.accept)] Part001.fresh)) = [2; 2]
  /\ Gitmt.id <$> Gitmt.users (Gitmt.registry (Gitmt.runs
       [(Gitmt.Add Gitmt.jane, Gitmt.accept);
        (Gitmt.Add Gitmt.bob, Gitmt.accept);
        (Gitmt.Remove "1", Gitmt.decline);
        (Gitmt.Add Gitmt.carol, Gitmt.accept)] Gitmt.fresh)) = [2; 2].
Proof.
  split; [exact part001_add_id|]. split; [exact gitmt_add_id|].
  split; vm_compute; reflexivity.
Qed.

(** *** The read-only commands *)

Lemma part001_readonly_runs (script : list (Part001.Command * Env))
    (w : World Part001.Config) :
  Forall (fun ce => Part001.isReadOnly (fst ce) = true) script ->
  sameStores w (Part001.runs script w).
Proof.
  revert w. induction script as [|[cmd env] script IH]; intros w H; simpl.
  - apply sameStores_refl.
  - apply Forall_cons in H as [H1 H2]. simpl in H1.
    eapply sameStores_trans; [apply (Part001Props.run_readonly cmd env w H1)|].
    apply IH, H2.
Qed.

Lemma gitmt_readonly_runs (script : list (Gitmt.Command * Env))
    (w : World Gitmt.Config) :
  Forall (fun ce => Gitmt.isReadOnly (fst ce) = true) script ->
  sameStores w (Gitmt.runs script w).
Proof.
  revert w. induction script as [|[cmd env] script IH]; intros w H; simpl.
  - apply sameStores_refl.
  - apply Forall_cons in H as [H1 H2]. simpl in H1.
    eapply sameStores_trans; [apply (GitmtProps.gitmt_run_readonly cmd env w H1)|].
    apply IH, H2.
Qed.

(** C8.  In both revisions, whatever the machine, after any number of
    runs of [list], [current], [key] (and, in [src/bin/gitmt.js],
    [global]) the registry file is what it was, missing if it was
    missing and with the same content otherwise, and it has not been
    written. *)
Theorem read_only_commands_keep_registry_file :
  (forall (script : list (Part001.Command * Env)) (w : World Part001.Config),
      Forall (fun ce => Part001.isReadOnly (fst ce) = true) script ->
      configFile (Part001.runs script w) = configFile w
      /\ configWrites (Part001.runs script w) = configWrites w)
  /\ (forall (script : list (Gitmt.Command * Env)) (w : World Gitmt.Config),
      Forall (fun ce => Gitmt.isReadOnly (fst ce) = true) script ->
      configFile (Gitmt.runs script w) = configFile w
      /\ configWrites (Gitmt.runs script w) = configWrites w).
Proof.
  split; intros script w H.
  - destruct (part001_readonly_runs script w H) as (H1 & H2 & _). auto.
  - destruct (gitmt_readonly_runs script w H) as (H1 & H2 & _). auto.
Qed.

Lemma read_only_commands_keep_registry_file_witness :
  let w := Gitmt.runs [(Gitmt.Add Gitmt.jane, Gitmt.accept)] Gitmt.fresh in
  configFile (Gitmt.runs [(Gitmt.List, Gitmt.decline);
                          (Gitmt.Current, Gitmt.decline);
                          (Gitmt.GlobalCmd, Gitmt.decline);
                          (Gitmt.Key "1", Gitmt.decline);
                          (Gitmt.Key "9", Gitmt.decline);
                          (Gitmt.List, Gitmt.decline)] w)
  = configFile w
  /\ configWrites (Gitmt.runs [(Gitmt.List, Gitmt.decline);
                               (Gitmt.Current, Gitmt.decline);
                               (Gitmt.GlobalCmd, Gitmt.decline);
                               (Gitmt.Key "1", Gitmt.decline);
                               (Gitmt.Key "9", Gitmt.decline);
                               (Gitmt.List, Gitmt.decline)] w)
     = configWrites w.
Proof.
  intros w. apply (proj2 read_only_commands_keep_registry_file).
  repeat constructor.
Defined.

(** *** [current] *)

Lemma part001_current_returns (p : Proc Part001.Config) :
  Part001.activeValid (config p) -> exists p', Part001.current p = Ret () p'.
Proof.
  unfold Part001.activeValid, Part001.current. intros H. exec.
  destruct (falsy _) eqn:Ef; [eexists; reflexivity|].
  destruct (find _ _) as [u|] eqn:E; [eexists; reflexivity|].
  exfalso. destruct (Part001.activeUser (config p)) as [a|] eqn:Ea.
  - destruct H as (u & Hu & Ha). apply list_elem_of_In in Hu.
    pose proof (find_none _ _ E u Hu) as Hf.
    unfold Part001.isActive in Hf. rewrite Ea in Hf.
    apply Z.eqb_neq in Hf. contradiction.
  - discriminate.
Qed.

Lemma gitmt_current_returns (p : Proc Gitmt.Config) :
  Gitmt.activeValid (config p) -> exists p', Gitmt.current p = Ret () p'.
Proof.
  unfold Gitmt.activeValid, Gitmt.current. intros H. exec.
  destruct (falsy _) eqn:Ef; [eexists; reflexivity|].
  destruct (find _ _) as [u|] eqn:E; [eexists; reflexivity|].
  exfalso. destruct (Gitmt.activeUser (config p)) as [a|] eqn:Ea.
  - destruct H as (u & Hu & Ha). apply list_elem_of_In in Hu.
    pose proof (find_none _ _ E u Hu) as Hf.
    unfold Gitmt.isActive in Hf. rewrite Ea in Hf.
    apply Z.eqb_neq in Hf. contradiction.
  - discriminate.
Qed.

(** C9.  In both revisions [current] reads [user.name] on the result of
    [find] with no test: when the loaded registry has an [activeUser]
    that is null or the id of one of its records, the run ends without an
    exception; on a registry file whose [activeUser] is 5 and that has no
    record, the run ends with a [TypeError]. *)
Theorem current_dereferences_unchecked :
  (forall (env : Env) (w : World Part001.Config),
      configFile w <> Unparseable ->
      Part001.activeValid (Part001.registry w) ->
      thrown (Part001.run Part001.Current env w) = None)
  /\ (forall (env : Env) (w : World Gitmt.Config),
      configFile w <> Unparseable ->
      Gitmt.activeValid (Gitmt.registry w) ->
      thrown (Gitmt.run Gitmt.Current env w) = None)
  /\ (~ Part001.activeValid (Part001.registry Part001.dangling)
      /\ thrown (Part001.run Part001.Current Part001.decline Part001.dangling)
         = Some (TypeError "Cannot read properties of undefined (reading 'name')"))
  /\ (~ Gitmt.activeValid (Gitmt.registry Gitmt.dangling)
      /\ thrown (Gitmt.run Gitmt.Current Gitmt.decline Gitmt.dangling)
         = Some (TypeError "Cannot read properties of undefined (reading 'name')")).
Proof.
  split; [|split; [|split]].
  - intros env w Hp Hv. rewrite Part001Props.run_loaded by exact Hp. simpl.
    destruct (part001_current_returns
                (mkProc (Part001.registry w) (ensureDir w)) Hv) as (q & ->).
    reflexivity.
  - intros env w Hp Hv. rewrite GitmtProps.gitmt_run_loaded by exact Hp. simpl.
    destruct (gitmt_current_returns
                (mkProc (Gitmt.registry w) (ensureDir w)) Hv) as (q & ->).
    reflexivity.
  - split; [|vm_compute; reflexivity].
    intros (u & Hu & _). simpl in Hu. apply elem_of_nil in Hu. exact Hu.
  - split; [|vm_compute; reflexivity].
    intros (u & Hu & _). simpl in Hu. apply elem_of_nil in Hu. exact Hu.
Qed.

Lemma current_dereferences_unchecked_witness :
  let w := Part001.runs [(Part001.Add Part001.jane, Part001.accept)]
                        Part001.fresh in
  thrown (Part001.run Part001.Current Part001.decline w) = None.
Proof.
  intros w. apply (proj1 current_dereferences_unchecked).
  - discriminate.
  - vm_compute. eexists. split; [apply list_elem_of_here | reflexivity].
Defined.

Lemma next_id_is_count_plus_one_witness :
  exists u p',
    Part001.add Part001.bob Part001.accept
      (mkProc (Part001.registry
                 (Part001.runs [(Part001.Add Part001.jane, Part001.accept)]
                               Part001.fresh))
              Part001.fresh) = Ret () p'
    /\ Part001.users (config p')
       = (Part001.users (Part001.registry
            (Part001.runs [(Part001.Add Part001.jane, Part001.accept)]
                          Part001.fresh)) ++ [u])%list
    /\ Part001.id u = 2.
Proof.
  pose proof (proj1 next_id_is_count_plus_one Part001.bob Part001.accept
                (mkProc (Part001.registry
                           (Part001.runs [(Part001.Add Part001.jane, Part001.accept)]
                                         Part001.fresh))
                        Part001.fresh)) as H.
  destruct (Part001.add _ _ _) as [[] q|e q].
  - destruct H as (u & H1 & H2 & _). exists u, q. auto.
  - destruct H as (H & _). discriminate H.
Defined.

End SharedProps.

(** * Properties of the text functions *)

Module TextProps.
Import JS.

Lemma append_cons (x : ascii) (a b : string) :
  String x a +:+ b = String x (a +:+ b).
Proof. reflexivity. Qed.

Lemma append_nil_l (a : string) : "" +:+ a = a.
Proof. reflexivity. Qed.

Lemma list_ascii_app (a b : string) :
  list_ascii_of_string (a +:+ b)
  = (list_ascii_of_string a ++ list_ascii_of_string b)%list.
Proof.
  induction a as [|c a IH]; [reflexivity|].
  rewrite append_cons. simpl. rewrite IH. reflexivity.
Qed.

Lemma string_of_app (a b : list ascii) :
  string_of_list_ascii (a ++ b)
  = string_of_list_ascii a +:+ string_of_list_ascii b.
Proof.
  induction a as [|c a IH]; [reflexivity|].
  simpl. rewrite append_cons, IH. reflexivity.
Qed.

Lemma append_assoc (a b c : string) : (a +:+ b) +:+ c = a +:+ (b +:+ c).
Proof.
  induction a as [|x a IH]; [reflexivity|].
  rewrite !append_cons, IH. reflexivity.
Qed.

Lemma append_nil_r (a : string) : a +:+ "" = a.
Proof.
  induction a as [|x a IH]; [reflexivity|].
  rewrite append_cons, IH. reflexivity.
Qed.

(** *** [trim] *)



Lemma trimStart_id (l : list ascii) : startsClean l = true -> trimStart l = l.
Proof.
  destruct l as [|c l]; simpl; [reflexivity|].
  destruct (isWhiteSpace c); [discriminate | reflexivity].
Qed.

Lemma trimStart_ws (ws l : list ascii) :
  forallb isWhiteSpace ws = true -> trimStart (ws ++ l) = trimStart l.
Proof.
  induction ws as [|c ws IH]; simpl; [reflexivity|].
  intros H. apply andb_true_iff in H as [H1 H2]. rewrite H1. auto.
Qed.



Lemma trimEnd_id (l : list ascii) : startsClean (rev l) = true -> trimEnd l = l.
Proof.
  intros H. unfold trimEnd. rewrite trimStart_id by exact H.
  apply rev_involutive.
Qed.

Lemma trimEnd_ws (l ws : list ascii) :
  forallb isWhiteSpace ws = true -> trimEnd (l ++ ws) = trimEnd l.
Proof.
  intros H. unfold trimEnd. rewrite rev_app_distr, trimStart_ws; [reflexivity|].
  rewrite forallb_forall in *. intros x Hx. apply H, in_rev. exact Hx.
Qed.



Lemma trim_id (s : string) : trimmed s = true -> trim s = s.
Proof.
  unfold trimmed, trim. intros H. apply andb_true_iff in H as [H1 H2].
  rewrite trimStart_id by exact H1. rewrite trimEnd_id by exact H2.
  apply string_of_list_ascii_of_string.
Qed.

Lemma trimStart_all_ws (l : list ascii) :
  forallb isWhiteSpace l = true -> trimStart l = [].
Proof.
  induction l as [|c l IH]; simpl; [reflexivity|].
  intros H. apply andb_true_iff in H as [H1 H2]. rewrite H1. auto.
Qed.

(** White space around a trimmed text is what [trim] cuts. *)
Lemma trim_core (a m b : string) :
  forallb isWhiteSpace (list_ascii_of_string a) = true ->
  forallb isWhiteSpace (list_ascii_of_string b) = true ->
  trimmed m = true ->
  trim (a +:+ m +:+ b) = m.
Proof.
  intros Ha Hb Hm. unfold trim.
  rewrite !list_ascii_app, trimStart_ws by exact Ha.
  rewrite <- (string_of_list_ascii_of_string m) at 2.
  unfold trimmed in Hm. apply andb_true_iff in Hm as [H1 H2].
  destruct (list_ascii_of_string m) as [|c l] eqn:E.
  - simpl. rewrite trimStart_all_ws by exact Hb. reflexivity.
  - rewrite trimStart_id by exact H1.
    rewrite trimEnd_ws by exact Hb. rewrite trimEnd_id by exact H2.
    reflexivity.
Qed.


(** *** The removal expression *)


Lemma noLF_cons (c : ascii) (s : string) :
  noLF (String c s) = true -> c <> LF /\ noLF s = true.
Proof.
  simpl. intros H. apply andb_true_iff in H as [H1 H2]. split; [|exact H2].
  intros ->. rewrite Ascii.eqb_refl in H1. discriminate.
Qed.

Lemma noLF_app (a b : string) :
  noLF (a +:+ b) = (noLF a && noLF b)%bool.
Proof.
  induction a as [|c a IH]; [reflexivity|].
  rewrite append_cons. simpl. rewrite IH, andb_assoc. reflexivity.
Qed.





Lemma matchAtoms_suffix (p : list Atom) (s rest : string) :
  matchAtoms p s = Some rest -> exists pre, s = pre +:+ rest /\ String.length pre = List.length p.
Proof.
  revert s. induction p as [|a p IH]; intros s H; simpl in H.
  - injection H as <-. exists "". split; reflexivity.
  - destruct s as [|c s]; [discriminate|].
    destruct (matchAtom a c); [|discriminate].
    destruct (IH s H) as (pre & -> & Hl). exists (String c pre).
    split; [reflexivity | simpl; rewrite Hl; reflexivity].
Qed.

Lemma lazyAny_cons (c : ascii) (s : string) :
  lazyAny (String c s)
  = if lookahead (String c s) then String c s else lazyAny s.
Proof. reflexivity. Qed.

Lemma lazyAny_suffix (s : string) : exists pre, s = pre +:+ lazyAny s.
Proof.
  induction s as [|c s (pre & IH)].
  - exists "". reflexivity.
  - rewrite lazyAny_cons. destruct (lookahead (String c s)).
    + exists "". reflexivity.
    + exists (String c pre). rewrite append_cons. f_equal. exact IH.
Qed.

Lemma length_append (a b : string) :
  String.length (a +:+ b) = (String.length a + String.length b)%nat.
Proof.
  induction a as [|c a IH]; [reflexivity|].
  rewrite append_cons. simpl. rewrite IH. reflexivity.
Qed.

Lemma lazyAny_length (s : string) :
  (String.length (lazyAny s) <= String.length s)%nat.
Proof.
  destruct (lazyAny_suffix s) as (pre & H). rewrite H at 2.
  rewrite length_append. lia.
Qed.

(** Enough fuel is as good as more fuel. *)
Lemma removeMatches_fuel (a : Atom) (q : list Atom) (s : string) (f1 f2 : nat) :
  (String.length s <= f1)%nat -> (String.length s <= f2)%nat ->
  removeMatches f1 (a :: q) s = removeMatches f2 (a :: q) s.
Proof.
  revert s f2. induction f1 as [|f1 IH]; intros s f2 H1 H2.
  - destruct s; [|simpl in H1; lia]. destruct f2; reflexivity.
  - destruct f2 as [|f2]; [destruct s; [reflexivity | simpl in H2; lia]|].
    destruct s as [|c s]; [reflexivity|].
    cbn [removeMatches]. simpl in H1, H2.
    destruct (matchAtoms (a :: q) (String c s)) as [rest|] eqn:E.
    + apply matchAtoms_suffix in E as (pre & Hs & Hl).
      pose proof (lazyAny_length rest) as Hr.
      assert (String.length rest < String.length (String c s))%nat.
      { rewrite Hs, length_append, Hl. simpl. lia. }
      simpl in *. apply IH; lia.
    + f_equal. apply IH; lia.
Qed.



End TextProps.

(** * The SSH client configuration editor *)

Module SshProps.
Import JS Machine MachineProps Part001 TextProps.

(** *** Lines *)

Lemma rev_app_append (a b c : string) :
  String.rev_app a b +:+ c = String.rev_app a (b +:+ c).
Proof.
  revert b. induction a as [|x a IH]; intros b; [reflexivity|].
  cbn [String.rev_app]. rewrite IH, append_cons. reflexivity.
Qed.

Lemma linesFrom_noLF (cur s : string) :
  noLF s = true -> linesFrom cur s = [String.rev cur +:+ s].
Proof.
  revert cur. induction s as [|c s IH]; intros cur H.
  - cbn [linesFrom]. rewrite append_nil_r. reflexivity.
  - apply noLF_cons in H as [Hc Hs]. cbn [linesFrom].
    destruct (Ascii.eqb_spec c LF) as [->|_]; [contradiction|].
    rewrite IH by exact Hs. unfold String.rev. cbn [String.rev_app].
    rewrite !rev_app_append. reflexivity.
Qed.

Lemma lines_noLF (s : string) : noLF s = true -> lines s = [s].
Proof. intros H. unfold lines. rewrite linesFrom_noLF by exact H. reflexivity. Qed.

Lemma linesFrom_app (cur a b : string) :
  linesFrom cur (a +:+ String LF b) = (linesFrom cur a ++ lines b)%list.
Proof.
  revert cur. induction a as [|c a IH]; intros cur.
  - rewrite append_nil_l. cbn [linesFrom]. rewrite Ascii.eqb_refl. reflexivity.
  - rewrite append_cons. cbn [linesFrom].
    destruct (Ascii.eqb c LF); [|apply IH].
    rewrite IH. reflexivity.
Qed.

(** The lines of two texts joined by a line feed are the lines of the
    one, then the lines of the other. *)
Lemma lines_app (a b : string) :
  lines (a +:+ nl +:+ b) = (lines a ++ lines b)%list.
Proof. apply linesFrom_app. Qed.


Lemma newConfig_stanza (alias path : string) :
  newConfig alias path = nl +:+ stanza alias path +:+ nl.
Proof.
  unfold newConfig, stanza, header. rewrite !append_assoc. reflexivity.
Qed.

(** *** Counting stanzas *)

Lemma stanzaCount_app (a x y : string) :
  stanzaCount a (x +:+ nl +:+ y) = (stanzaCount a x + stanzaCount a y)%nat.
Proof.
  unfold stanzaCount. rewrite lines_app, filter_app, length_app. reflexivity.
Qed.

Lemma stanzaCount_noLF (a x : string) :
  noLF x = true ->
  stanzaCount a x = if decide (x = header a) then 1%nat else 0%nat.
Proof.
  intros H. unfold stanzaCount. rewrite lines_noLF by exact H.
  unfold header. rewrite filter_cons, filter_nil.
  destruct (decide _); reflexivity.
Qed.

Lemma append_inj_r (a x y : string) : a +:+ x = a +:+ y -> x = y.
Proof.
  induction a as [|c a IH]; [auto|]. rewrite !append_cons. intros [= H]. auto.
Qed.

Lemma stanzaCount_stanza (a alias path : string) :
  noLF alias = true -> noLF path = true ->
  stanzaCount a (stanza alias path)
  = if decide (a = alias) then 1%nat else 0%nat.
Proof.
  intros Ha Hp. unfold stanza.
  rewrite !stanzaCount_app.
  rewrite (stanzaCount_noLF a (header alias))
    by (unfold header; rewrite noLF_app, Ha; reflexivity).
  rewrite (stanzaCount_noLF a "    HostName github.com") by reflexivity.
  rewrite (stanzaCount_noLF a "    User git") by reflexivity.
  rewrite (stanzaCount_noLF a ("    IdentityFile " +:+ path))
    by (rewrite noLF_app, Hp; reflexivity).
  rewrite (stanzaCount_noLF a "    IdentitiesOnly yes") by reflexivity.
  unfold header.
  repeat match goal with
  | |- context [decide (?x = ?y)] =>
      lazymatch x with
      | "Host github.com-" +:+ _ => fail
      | _ => destruct (decide (x = y)) as [E|_]; [discriminate E|]
      end
  end.
  destruct (decide ("Host github.com-" +:+ alias = "Host github.com-" +:+ a))
    as [E|E], (decide (a = alias)) as [E'|E']; try reflexivity.
  - apply append_inj_r in E. congruence.
  - subst. contradiction.
Qed.

Lemma trimmed_stanza (alias path : string) : trimmed (stanza alias path) = true.
Proof.
  unfold trimmed, stanza, header. rewrite !list_ascii_app, !rev_app_distr.
  reflexivity.
Qed.

Lemma trimmed_join (t b : string) :
  t <> "" -> b <> "" -> trimmed t = true -> trimmed b = true ->
  trimmed (t +:+ nl +:+ nl +:+ b) = true.
Proof.
  unfold trimmed. intros Ht Hb H1 H2.
  apply andb_true_iff in H1 as [H1 _]. apply andb_true_iff in H2 as [_ H2].
  rewrite !list_ascii_app, !rev_app_distr.
  destruct t as [|c t]; [contradiction|].
  destruct (list_ascii_of_string b) as [|d l] eqn:E.
  - destruct b; [contradiction | discriminate].
  - cbn [list_ascii_of_string app startsClean] in *. rewrite H1. simpl.
    destruct (rev l ++ [d])%list eqn:E2; [destruct (rev l); discriminate|].
    simpl in *. rewrite E2 in H2. simpl. exact H2.
Qed.

(** What [updateSSHConfig] in its adding mode makes of a text that is
    empty or as written. *)
Lemma appended_text (alias path old : string) :
  old = "" \/ asWritten old ->
  exists m,
    trim (old +:+ newConfig alias path) = m
    /\ trimmed m = true
    /\ (m = stanza alias path /\ (old = "" \/ old = nl)
        \/ exists t, t <> "" /\ trimmed t = true /\ old = t +:+ nl
                     /\ m = t +:+ nl +:+ nl +:+ stanza alias path).
Proof.
  intros H. rewrite newConfig_stanza.
  assert (Hnl : forallb isWhiteSpace (list_ascii_of_string nl) = true)
    by reflexivity.
  destruct H as [->|(t & -> & Ht)]; [|destruct (decide (t = "")) as [->|Hne]].
  - exists (stanza alias path). rewrite append_nil_l.
    split; [|split; [apply trimmed_stanza | left; auto]].
    apply trim_core; [exact Hnl | exact Hnl | apply trimmed_stanza].
  - exists (stanza alias path). rewrite append_nil_l.
    split; [|split; [apply trimmed_stanza | left; auto]].
    rewrite <- append_assoc.
    apply trim_core; [reflexivity | exact Hnl | apply trimmed_stanza].
  - exists (t +:+ nl +:+ nl +:+ stanza alias path).
    assert (Hs : stanza alias path <> "") by (unfold stanza, header; discriminate).
    pose proof (trimmed_join t _ Hne Hs Ht (trimmed_stanza alias path)) as Hm.
    split; [|split; [exact Hm | right; exists t; auto]].
    rewrite <- (append_nil_l ((t +:+ nl) +:+ _)).
    replace ((t +:+ nl) +:+ nl +:+ stanza alias path +:+ nl)
      with ((t +:+ nl +:+ nl +:+ stanza alias path) +:+ nl)
      by (rewrite !append_assoc; reflexivity).
    apply trim_core; [reflexivity | exact Hnl | exact Hm].
Qed.


(** *** [updateSSHConfig] *)

Lemma updateSSHConfig_eq (alias path : string) (isRemove : bool) (p : Proc Config) :
  updateSSHConfig alias path isRemove p
  = Ret () (mkProc (config p)
      (set_fs (<[SSH_CONFIG_FILE (world p) :=
                 trim (if isRemove then removeStanzas alias (sshConfigOf (world p))
                       else sshConfigOf (world p) +:+ newConfig alias path)
                 +:+ nl]> (fs (world p)))
              (world p))).
Proof. reflexivity. Qed.

Lemma sshConfigOf_set (text : string) (w : World Config) :
  sshConfigOf (set_fs (<[SSH_CONFIG_FILE w := text]> (fs w)) w) = text.
Proof.
  unfold sshConfigOf, SSH_CONFIG_FILE, SSH_DIR. simpl.
  rewrite lookup_insert_eq. reflexivity.
Qed.


Lemma appended_count (alias path old a : string) :
  old = "" \/ asWritten old ->
  noLF alias = true -> noLF path = true ->
  stanzaCount a (trim (old +:+ newConfig alias path) +:+ nl)
  = (stanzaCount a old + if decide (a = alias) then 1 else 0)%nat.
Proof.
  intros Hold Ha Hp.
  destruct (appended_text alias path _ Hold) as (m & Em & Hm & Hcase).
  rewrite Em. clear Em.
  pose proof (stanzaCount_stanza a alias path Ha Hp) as Hst.
  assert (H0 : stanzaCount a "" = 0%nat) by reflexivity.
  change (m +:+ nl) with (m +:+ nl +:+ "").
  rewrite (stanzaCount_app a m ""), H0.
  destruct Hcase as [[-> [->| ->]]|(t & Hne & Ht & -> & ->)].
  - rewrite Hst, H0. lia.
  - change nl with ("" +:+ nl +:+ "").
    rewrite (stanzaCount_app a "" ""), Hst, H0. lia.
  - change (t +:+ nl) with (t +:+ nl +:+ "").
    rewrite (stanzaCount_app a t ""), (stanzaCount_app a t).
    change (nl +:+ stanza alias path) with ("" +:+ nl +:+ stanza alias path).
    rewrite (stanzaCount_app a ""), Hst, H0. lia.
Qed.

(** X2.  On a configuration that is missing, empty or as
    [updateSSHConfig] leaves one, and for an alias and a key path without
    line feed, the adding mode adds one stanza for the alias and none for
    any other alias: it never looks for a stanza that is already there. *)
Theorem updateSSHConfig_adds_one_stanza
    (alias path : string) (p : Proc Config) :
  sshConfigOf (world p) = "" \/ asWritten (sshConfigOf (world p)) ->
  noLF alias = true -> noLF path = true ->
  exists p',
    updateSSHConfig alias path false p = Ret () p'
    /\ forall a,
        stanzaCount a (sshConfigOf (world p'))
        = (stanzaCount a (sshConfigOf (world p))
           + if decide (a = alias) then 1 else 0)%nat.
Proof.
  intros Hold Ha Hp. eexists. split; [apply updateSSHConfig_eq|].
  cbn [world]. rewrite sshConfigOf_set. cbv iota. intros a.
  apply appended_count; assumption.
Qed.

Lemma updateSSHConfig_adds_one_stanza_witness :
  exists p',
    updateSSHConfig "jane" "/home/u/.ssh/id_rsa_gitmt_jane" false
      (mkProc initialConfig (withSshConfig janeStanza fresh)) = Ret () p'
    /\ forall a,
        stanzaCount a (sshConfigOf (world p'))
        = (stanzaCount a janeStanza + if decide (a = "jane") then 1 else 0)%nat.
Proof.
  apply (updateSSHConfig_adds_one_stanza "jane" "/home/u/.ssh/id_rsa_gitmt_jane"
           (mkProc initialConfig (withSshConfig janeStanza fresh))).
  - right. exists (stanza "jane" "/home/u/.ssh/id_rsa_gitmt_jane").
    split; reflexivity.
  - reflexivity.
  - reflexivity.
Defined.


(** *** Adding a stanza and removing it again *)











(** *** What the removal leaves *)



Lemma suffix_sublist (pre s : string) :
  list_ascii_of_string s `sublist_of` list_ascii_of_string (pre +:+ s).
Proof. rewrite list_ascii_app. apply sublist_inserts_l. reflexivity. Qed.

Lemma removeMatches_sublist (fuel : nat) (p : list Atom) (s : string) :
  list_ascii_of_string (removeMatches fuel p s)
  `sublist_of` list_ascii_of_string s.
Proof.
  revert s. induction fuel as [|fuel IH]; intros s; [reflexivity|].
  destruct s as [|c s]; [reflexivity|]. cbn [removeMatches].
  destruct (matchAtoms p (String c s)) as [rest|] eqn:E.
  - apply matchAtoms_suffix in E as (pre & -> & _).
    destruct (lazyAny_suffix rest) as (pre' & Hr).
    etransitivity; [apply IH|]. etransitivity; [|apply suffix_sublist].
    rewrite Hr at 2. apply suffix_sublist.
  - cbn [list_ascii_of_string]. apply sublist_skip, IH.
Qed.

(** X5.  The removal only cuts: what it leaves is the configuration with
    pieces taken out, nothing added and nothing moved, so it is never
    longer than the configuration was. *)
Theorem removeStanzas_only_cuts (alias sshConfig : string) :
  list_ascii_of_string (removeStanzas alias sshConfig)
    `sublist_of` list_ascii_of_string sshConfig
  /\ (String.length (removeStanzas alias sshConfig) <= String.length sshConfig)%nat.
Proof.
  pose proof (removeMatches_sublist (String.length sshConfig)
                (headerPattern alias) sshConfig) as H.
  split; [exact H|]. apply sublist_length in H.
  assert (L : forall x, List.length (list_ascii_of_string x) = String.length x)
    by (induction x; simpl; congruence).
  rewrite !L in H. exact H.
Qed.

End SshProps.

(** * The id argument *)

Module ParseProps.
Import JS TextProps.

(** *** The decimal text of an integer parses to the integer *)


Lemma digitsPrefix_chars (d : Decimal.uint) :
  digitsPrefix 10 (chars d) = digitsOf d.
Proof.
  unfold chars. induction d; cbn [NilEmpty.string_of_uint list_ascii_of_string
    digitsPrefix digitsOf]; try reflexivity;
  match goal with |- context [digitValue ?c] =>
    let v := eval vm_compute in (digitValue c) in
    change (digitValue c) with v
  end; cbv iota beta;
  match goal with |- context [Z.ltb ?a ?b] =>
    change (Z.ltb a b) with true
  end; cbv iota; f_equal; exact IHd.
Qed.

Lemma fold_digits_pos (d : Decimal.uint) (acc : positive) :
  fold_left (fun a x => a * 10 + x) (digitsOf d) (Zpos acc)
  = Zpos (Pos.of_uint_acc d acc).
Proof.
  revert acc. induction d; intros acc; cbn [digitsOf fold_left Pos.of_uint_acc];
    try reflexivity;
    match goal with |- fold_left _ _ ?a = Zpos (Pos.of_uint_acc _ ?b) =>
      replace a with (Zpos b) by lia
    end; apply IHd.
Qed.

Lemma mathInt_digits (d : Decimal.uint) :
  mathInt 10 (digitsOf d) = Z.of_N (Pos.of_uint d).
Proof.
  unfold mathInt. induction d; cbn [digitsOf fold_left Pos.of_uint];
    try reflexivity; try exact IHd;
    match goal with |- fold_left _ _ ?a = _ =>
      let v := eval vm_compute in a in change a with v
    end; rewrite fold_digits_pos; reflexivity.
Qed.

Lemma chars_digits (d : Decimal.uint) : forallb isDigit (chars d) = true.
Proof.
  unfold chars. induction d; cbn [NilEmpty.string_of_uint list_ascii_of_string
    forallb]; try reflexivity;
  match goal with |- context [isDigit ?c] =>
    change (isDigit c) with true
  end; exact IHd.
Qed.

Lemma isDigit_plain (c : ascii) :
  isDigit c = true ->
  isWhiteSpace c = false /\ Ascii.eqb c "-" = false /\ Ascii.eqb c "+" = false
  /\ Ascii.eqb c "x" = false /\ Ascii.eqb c "X" = false.
Proof.
  intros H. repeat split.
  - destruct (isWhiteSpace c) eqn:E; [|reflexivity].
    unfold isWhiteSpace, isDigit in *.
    repeat (apply orb_true_iff in E as [E|E]);
      apply Nat.eqb_eq in E; rewrite E in H; discriminate.
  - destruct (Ascii.eqb_spec c "-") as [->|]; [discriminate | reflexivity].
  - destruct (Ascii.eqb_spec c "+") as [->|]; [discriminate | reflexivity].
  - destruct (Ascii.eqb_spec c "x") as [->|]; [discriminate | reflexivity].
  - destruct (Ascii.eqb_spec c "X") as [->|]; [discriminate | reflexivity].
Qed.

(** A text of decimal digits is read in radix 10, to its end. *)
Lemma parse_digits (l : list ascii) :
  l <> [] -> forallb isDigit l = true ->
  trimStart l = l /\ stripSign l = (1, l) /\ stripPrefix l = (10, l).
Proof.
  intros Hne H. destruct l as [|c l]; [contradiction|].
  cbn [forallb] in H. apply andb_true_iff in H as [Hc Hl].
  destruct (isDigit_plain c Hc) as (H1 & H2 & H3 & _).
  split; [|split].
  - cbn [trimStart]. rewrite H1. reflexivity.
  - cbn [stripSign]. rewrite H2, H3. reflexivity.
  - destruct l as [|d l]; [reflexivity|]. cbn [stripPrefix].
    cbn [forallb] in Hl. apply andb_true_iff in Hl as [Hd _].
    destruct (isDigit_plain d Hd) as (_ & _ & _ & H4 & H5).
    rewrite H4, H5, andb_false_r. reflexivity.
Qed.

Lemma digitsOf_nil (d : Decimal.uint) : digitsOf d = [] -> d = Decimal.Nil.
Proof. destruct d; simpl; congruence. Qed.

Lemma parseInt_uint (d : Decimal.uint) :
  parseInt (NilZero.string_of_uint d) = Int (Z.of_N (Pos.of_uint d))
  /\ parseInt (String "-" (NilZero.string_of_uint d))
     = Int (- Z.of_N (Pos.of_uint d)).
Proof.
  assert (Hnil : d = Decimal.Nil \/ d <> Decimal.Nil)
    by (destruct d; [left; reflexivity | right; discriminate..]).
  destruct Hnil as [->|Hne]; [split; reflexivity|].
  assert (E : NilZero.string_of_uint d = NilEmpty.string_of_uint d)
    by (destruct d; [contradiction | reflexivity..]).
  rewrite E. pose proof (chars_digits d) as Hd.
  assert (Hc : chars d <> []).
  { intros Hc. pose proof (digitsPrefix_chars d) as P. rewrite Hc in P.
    symmetry in P. apply digitsOf_nil in P. contradiction. }
  destruct (parse_digits (chars d) Hc Hd) as (T & S1 & S2).
  unfold parseInt. cbn [list_ascii_of_string trimStart].
  change (isWhiteSpace "-") with false. cbv iota.
  fold (chars d). rewrite T, S1. cbn [stripSign].
  change (Ascii.eqb "-" "-") with true. cbv iota.
  rewrite S2, digitsPrefix_chars.
  destruct (digitsOf d) as [|x ds] eqn:D;
    [apply digitsOf_nil in D; contradiction|].
  rewrite <- D, mathInt_digits. split; f_equal; lia.
Qed.

Lemma parseInt_printed (z : Z) : parseInt (Z_to_string z) = Int z.
Proof.
  unfold Z_to_string. destruct z as [|p|p]; [reflexivity| |];
    cbn [Z.to_int NilZero.string_of_int];
    destruct (parseInt_uint (Pos.to_uint p)) as [H1 H2];
    rewrite ?H1, ?H2, Unsigned.of_to; reflexivity.
Qed.



Lemma digitValue_digit (c : ascii) :
  isDigit c = true -> exists v, digitValue c = Some v /\ Z.ltb v 10 = true.
Proof.
  unfold isDigit, digitValue. intros H. rewrite H.
  apply andb_true_iff in H as [H1 H2].
  apply Nat.leb_le in H1. apply Nat.leb_le in H2.
  eexists. split; [reflexivity|]. apply Z.ltb_lt. lia.
Qed.

Lemma digitsPrefix_digit (c : ascii) (l : list ascii) :
  isDigit c = true -> digitsPrefix 10 (c :: l) <> [].
Proof.
  intros H. destruct (digitValue_digit c H) as (v & Hv & Hlt).
  cbn [digitsPrefix]. rewrite Hv, Hlt. discriminate.
Qed.

(** X7.  [parseInt] gives [NaN] in two cases and no other: the argument,
    after leading white space and one optional sign, does not go on with
    a decimal digit; or it goes on with [0x] or [0X] and no hexadecimal
    digit after it. *)
Theorem parseInt_NaN_iff (idArg : string) :
  parseInt idArg = NaN <-> leadingDigit idArg = false \/ hexStub idArg = true.
Proof.
  unfold parseInt, leadingDigit, hexStub.
  destruct (stripSign _) as [sign rest]. cbn [snd].
  destruct rest as [|c rest]; [cbn; tauto|].
  destruct (isDigit c) eqn:Hc.
  2:{ rewrite (Part001Props.stripPrefix_not_digit c rest Hc).
      rewrite (Part001Props.digitsPrefix_not_digit c rest Hc). tauto. }
  destruct rest as [|d rest].
  { cbn [stripPrefix]. pose proof (digitsPrefix_digit c [] Hc) as Hne.
    destruct (digitsPrefix 10 [c]); [contradiction|].
    split; [discriminate | intros [H|H]; discriminate]. }
  cbn [stripPrefix].
  destruct (Ascii.eqb c "0" && (Ascii.eqb d "x" || Ascii.eqb d "X"))%bool eqn:Hx.
  - cbn [andb]. destruct rest as [|h rest]; [cbn; tauto|].
    cbn [digitsPrefix]. unfold isHexDigit.
    destruct (digitValue h) as [v|]; [|cbn; tauto].
    destruct (Z.ltb v 16); cbn [negb]; split;
      first [discriminate | tauto | intros [H|H]; discriminate].
  - pose proof (digitsPrefix_digit c (d :: rest) Hc) as Hne.
    destruct (digitsPrefix 10 (c :: d :: rest)); [contradiction|].
    cbn [andb]. split; [discriminate | intros [H|H]; discriminate].
Qed.

End ParseProps.

(** * The handlers of [src/unnamed/part_001] *)

Module Part001Extra.
Import JS Machine MachineProps Part001 Part001Props TextProps ParseProps.

(** *** A registry file that does not parse *)

(** X8.  When the registry file does not parse, every command stops at
    the top of the script with a [SyntaxError]: nothing is printed, and
    the registry file, the files of [~/.ssh] and the git configuration
    are as they were. *)
Theorem unparseable_registry_stops_every_command
    (cmd : Command) (env : Env) (w : World Config) :
  configFile w = Unparseable ->
  thrown (run cmd env w) = Some SyntaxError
  /\ sameStores w (after (run cmd env w))
  /\ stdout (after (run cmd env w)) = stdout w
  /\ stderr (after (run cmd env w)) = stderr w.
Proof.
  intros H. rewrite run_unparseable by exact H. cbn [thrown after].
  rewrite ensureDir_stdout, ensureDir_stderr.
  repeat split; try reflexivity; apply ensureDir_stores.
Qed.

Lemma unparseable_registry_stops_every_command_witness :
  thrown (run (Remove "1") accept (set_configFile Unparseable fresh))
  = Some SyntaxError
  /\ sameStores (set_configFile Unparseable fresh)
       (after (run (Remove "1") accept (set_configFile Unparseable fresh)))
  /\ stdout (after (run (Remove "1") accept (set_configFile Unparseable fresh)))
     = stdout (set_configFile Unparseable fresh)
  /\ stderr (after (run (Remove "1") accept (set_configFile Unparseable fresh)))
     = stderr (set_configFile Unparseable fresh).
Proof. apply unparseable_registry_stops_every_command. reflexivity. Defined.

(** *** [add] *)

Lemma lookup_exists (m : gmap string string) (f : string) :
  bool_decide (is_Some (m !! f)) = false <-> m !! f = None.
Proof.
  rewrite bool_decide_eq_false. split.
  - intros H. destruct (m !! f) eqn:E; [exfalso; apply H; eauto | reflexivity].
  - intros -> [x Hx]. discriminate.
Qed.

(** X9.  When the key file is missing, the offer of a key is accepted
    and [ssh-keygen] fails, [add] ends with the exception of [execSync]
    before it has changed anything: no record, no stanza, no git
    identity, no line printed. *)
Theorem add_aborts_when_keygen_fails
    (options : Options) (env : Env) (w : World Config) :
  configFile w <> Unparseable ->
  keygenFails (keyPathOf (ensureDir w) (opt_alias options)) env (ensureDir w) ->
  thrown (run (Add options) env w) = Some ExecError
  /\ sameStores w (after (run (Add options) env w))
  /\ stdout (after (run (Add options) env w)) = stdout w
  /\ stderr (after (run (Add options) env w)) = stderr w.
Proof.
  intros Hp (Hk & Hc & Hg). rewrite run_loaded by exact Hp.
  apply lookup_exists in Hk. unfold keyPathOf in Hk.
  cbn [handler]. exec1. rewrite Hk. exec1. rewrite Hc. exec1. rewrite Hg. exec1.
  rewrite ensureDir_stdout, ensureDir_stderr.
  repeat split; try reflexivity; apply ensureDir_stores.
Qed.

Lemma add_aborts_when_keygen_fails_witness :
  let env := {| confirmAnswer := true; keygen := None; unlinkError := None |} in
  thrown (run (Add jane) env fresh) = Some ExecError
  /\ sameStores fresh (after (run (Add jane) env fresh))
  /\ stdout (after (run (Add jane) env fresh)) = stdout fresh
  /\ stderr (after (run (Add jane) env fresh)) = stderr fresh.
Proof.
  intros env. apply add_aborts_when_keygen_fails.
  - discriminate.
  - repeat split; reflexivity.
Defined.


Lemma registry_ensureDir (w : World Config) : registry (ensureDir w) = registry w.
Proof. apply registry_same, ensureDir_configFile. Qed.

Lemma ensureDir_fs (w : World Config) : fs (ensureDir w) = fs w.
Proof. apply ensureDir_stores. Qed.


Lemma ensureDir_gitLocal (w : World Config) : gitLocal (ensureDir w) = gitLocal w.
Proof. apply ensureDir_stores. Qed.

(** What a completed [add] leaves, beyond the registry. *)
Lemma add_completes (options : Options) (env : Env) (p : Proc Config) :
  ~ keygenFails (keyPathOf (world p) (opt_alias options)) env (world p) ->
  exists p',
    add options env p = Ret () p'
    /\ config p' = added options (keyPathOf (world p) (opt_alias options)) (config p)
    /\ configFile (world p') = Holds (config p')
    /\ gitGlobal (world p')
       = (if falsy (activeUser (config p))
          then gitIdentity (opt_name options) (opt_email options)
          else gitGlobal (world p))
    /\ gitLocal (world p') = gitLocal (world p)
    /\ stderr (world p') = stderr (world p)
    /\ (is_Some (fs (world p) !! keyPathOf (world p) (opt_alias options)) ->
        forall f, f <> SSH_CONFIG_FILE (world p) ->
                  fs (world p') !! f = fs (world p) !! f).
Proof.
  destruct p as [c w]. unfold keygenFails, keyPathOf, added, gitIdentity.
  cbn [world config]. intros Hnf. exec1.
  destruct (fs w !! _) as [k|] eqn:Ek.
  - rewrite bool_decide_eq_true_2 by eauto. exec1.
    destruct (falsy (activeUser c)); exec1;
      (eexists; split; [reflexivity|]); exec1;
      repeat split; try reflexivity;
      intros _ f Hf; apply lookup_insert_ne; congruence.
  - rewrite bool_decide_eq_false_2 by (intros [? ?]; discriminate). exec1.
    destruct (confirmAnswer env) eqn:Ec; exec1.
    + destruct (keygen env) as [[priv pub]|] eqn:Eg;
        [|exfalso; apply Hnf; auto]. exec1.
      destruct (falsy (activeUser c)); exec1;
        (eexists; split; [reflexivity|]); exec1;
        repeat split; try reflexivity; intros [? ?]; discriminate.
    + destruct (falsy (activeUser c)); exec1;
        (eexists; split; [reflexivity|]); exec1;
        repeat split; try reflexivity; intros [? ?]; discriminate.
Qed.



(** X11.  [add] never writes a key file that is already there: when the
    private key file of the alias exists, there is no prompt and no
    [ssh-keygen], and the only file of [~/.ssh] that changes is the SSH
    client configuration. *)
Theorem add_keeps_existing_key
    (options : Options) (env : Env) (w : World Config) :
  configFile w <> Unparseable ->
  is_Some (fs w !! keyPathOf w (opt_alias options)) ->
  thrown (run (Add options) env w) = None
  /\ forall f, f <> SSH_CONFIG_FILE w ->
               fs (after (run (Add options) env w)) !! f = fs w !! f.
Proof.
  intros Hp Hk. rewrite run_loaded by exact Hp. cbn [handler].
  assert (Hpath : keyPathOf (ensureDir w) (opt_alias options)
                  = keyPathOf w (opt_alias options))
    by (unfold keyPathOf, SSH_DIR; rewrite ensureDir_homedir; reflexivity).
  assert (Hcfg : SSH_CONFIG_FILE (ensureDir w) = SSH_CONFIG_FILE w)
    by (unfold SSH_CONFIG_FILE, SSH_DIR; rewrite ensureDir_homedir; reflexivity).
  destruct (add_completes options env (mkProc (registry w) (ensureDir w)))
    as (p' & -> & _ & _ & _ & _ & _ & Hfs).
  - intros (Hn & _). cbn [world] in Hn. rewrite Hpath, ensureDir_fs in Hn.
    destruct Hk as [x Hx]. congruence.
  - cbn [outcome thrown after world] in *. split; [reflexivity|].
    intros f Hf. rewrite Hfs, ensureDir_fs; [reflexivity | | congruence].
    rewrite Hpath, ensureDir_fs. exact Hk.
Qed.

Lemma add_keeps_existing_key_witness :
  let w := set_fs (<[keyPathOf fresh "jane" := "PRIVATE"]> ∅) fresh in
  thrown (run (Add jane) accept w) = None
  /\ forall f, f <> SSH_CONFIG_FILE w ->
               fs (after (run (Add jane) accept w)) !! f = fs w !! f.
Proof.
  intros w. apply add_keeps_existing_key.
  - discriminate.
  - eexists. apply lookup_insert_eq.
Defined.

(** *** [change] *)

Lemma find_printed_id (u0 : User) (l : list User) :
  u0 ∈ l ->
  exists u,
    find (fun u => strict_eq (id u) (parseInt (Z_to_string (id u0)))) l = Some u
    /\ u ∈ l /\ id u = id u0.
Proof.
  intros Hin. rewrite parseInt_printed.
  destruct (find _ l) as [u|] eqn:E.
  - apply find_elem_of in E as (Hu & Hs). apply strict_eq_spec in Hs.
    exists u. split; [reflexivity|]. split; [exact Hu | congruence].
  - apply list_elem_of_In in Hin. apply (find_none _ _ E) in Hin.
    simpl in Hin. rewrite Z.eqb_refl in Hin. discriminate.
Qed.

Lemma change_found (idArg : string) (u : User) (p : Proc Config) :
  find (fun u => strict_eq (id u) (parseInt idArg)) (users (config p)) = Some u ->
  change idArg p
  = Ret () (mkProc {| users := users (config p); activeUser := Some (id u) |}
      (set_stdout (stdout (world p)
                   ++ ["Switched to user: " +:+ name u +:+ " <" +:+ email u +:+ ">"])
         (set_configWrites (S (configWrites (world p)))
            (set_configFile
               (Holds {| users := users (config p); activeUser := Some (id u) |})
               (set_gitGlobal (gitIdentity (name u) (email u)) (world p)))))).
Proof.
  intros Hf. pose proof Hf as Hf'. apply find_elem_of in Hf' as (_ & Hs).
  apply strict_eq_spec in Hs. destruct p as [c w]. exec1. rewrite Hf. exec1.
  rewrite Hs. reflexivity.
Qed.

(** X12.  [change] with the id of a record, written as the handlers print
    it, ends without an exception; it makes that id the active user,
    writes the name and e-mail of the first record with that id as the
    global git identity, persists the registry and prints the switch; the
    records, the files of [~/.ssh] and the local git identity stay as
    they were. *)
Theorem change_switches_to_printed_id
    (u0 : User) (env : Env) (w : World Config) :
  configFile w <> Unparseable ->
  u0 ∈ users (registry w) ->
  exists u,
    find (fun u => Z.eqb (id u) (id u0)) (users (registry w)) = Some u
    /\ thrown (run (Change (Z_to_string (id u0))) env w) = None
    /\ registry (after (run (Change (Z_to_string (id u0))) env w))
       = {| users := users (registry w); activeUser := Some (id u0) |}
    /\ gitGlobal (after (run (Change (Z_to_string (id u0))) env w))
       = gitIdentity (name u) (email u)
    /\ gitLocal (after (run (Change (Z_to_string (id u0))) env w)) = gitLocal w
    /\ fs (after (run (Change (Z_to_string (id u0))) env w)) = fs w
    /\ stdout (after (run (Change (Z_to_string (id u0))) env w))
       = (stdout w
          ++ ["Switched to user: " +:+ name u +:+ " <" +:+ email u +:+ ">"])%list.
Proof.
  intros Hp Hin. destruct (find_printed_id u0 _ Hin) as (u & Hf & Hu & Hid).
  exists u. split.
  { rewrite parseInt_printed in Hf. exact Hf. }
  rewrite run_loaded by exact Hp. cbn [handler].
  rewrite (change_found _ u (mkProc (registry w) (ensureDir w)) Hf).
  cbn [outcome thrown after]. exec.
  rewrite ensureDir_stdout, ensureDir_fs, ensureDir_gitLocal, Hid.
  unfold registry at 1. exec. auto 10.
Qed.

Lemma change_switches_to_printed_id_witness :
  let w := runs [(Add jane, accept); (Add bob, decline)] fresh in
  let u0 := {| id := 2; name := "Bob Roe"; email := "bob@x.com"; alias := "bob";
               sshKeyPath := "/home/u/.ssh/id_rsa_gitmt_bob" |} in
  exists u,
    find (fun u => Z.eqb (id u) (id u0)) (users (registry w)) = Some u
    /\ thrown (run (Change (Z_to_string (id u0))) decline w) = None
    /\ registry (after (run (Change (Z_to_string (id u0))) decline w))
       = {| users := users (registry w); activeUser := Some (id u0) |}
    /\ gitGlobal (after (run (Change (Z_to_string (id u0))) decline w))
       = gitIdentity (name u) (email u)
    /\ gitLocal (after (run (Change (Z_to_string (id u0))) decline w)) = gitLocal w
    /\ fs (after (run (Change (Z_to_string (id u0))) decline w)) = fs w
    /\ stdout (after (run (Change (Z_to_string (id u0))) decline w))
       = (stdout w
          ++ ["Switched to user: " +:+ name u +:+ " <" +:+ email u +:+ ">"])%list.
Proof.
  intros w u0.
  apply (change_switches_to_printed_id u0 decline w).
  - vm_compute. discriminate.
  - vm_compute. apply list_elem_of_further, list_elem_of_here.
Defined.



















Lemma added_wellNumbered (options : Options) (path : string) (c : Config) :
  wellNumbered c -> wellNumbered (added options path c).
Proof.
  intros [Hu Ha]. unfold added. split; cbn [users activeUser].
  - intros k u Hk. apply lookup_app_Some in Hk as [Hk|[Hlen Hk]].
    + apply (Hu k u Hk).
    + destruct (k - length (users c))%nat as [|m] eqn:E; [|discriminate].
      injection Hk as <-. cbn [id]. lia.
  - intros a. destruct (falsy (activeUser c)).
    + intros [= <-]. lia.
    + apply Ha.
Qed.

Lemma removed_wellNumbered (i : nat) (n : Num) (c : Config) :
  wellNumbered c -> wellNumbered (removed i n c).
Proof.
  intros [Hu Ha]. unfold removed. split; cbn [users activeUser].
  - intros k u Hk. destruct (decide (k < i)%nat) as [Hlt|Hge].
    + rewrite list_lookup_delete_lt in Hk by exact Hlt. apply (Hu k u Hk).
    + rewrite list_lookup_delete_ge in Hk by lia.
      specialize (Hu (S k) u Hk). lia.
  - intros a. destruct (strict_eq_opt _ _); [discriminate | apply Ha].
Qed.

Lemma changed_wellNumbered (u : User) (n : Num) (c : Config) :
  find (fun u => strict_eq (id u) n) (users c) = Some u ->
  wellNumbered c ->
  wellNumbered {| users := users c; activeUser := stored n |}.
Proof.
  intros Hf [Hu Ha]. split; cbn [users activeUser]; [exact Hu|].
  apply find_elem_of in Hf as (Hin & Hs). apply strict_eq_spec in Hs. subst n.
  intros a [= <-]. apply list_elem_of_lookup_1 in Hin as (k & Hk).
  specialize (Hu k u Hk). lia.
Qed.

Lemma run_wellNumbered (cmd : Command) (env : Env) (w : World Config) :
  wellNumbered (registry w) -> wellNumbered (registry (after (run cmd env w))).
Proof.
  intros H. pose proof (run_registry cmd env w) as R. cbv zeta in R.
  destruct cmd; try (rewrite R; exact H).
  - destruct R as [->| ->]; [exact H | apply added_wellNumbered, H].
  - destruct R as [->|(i & u & _ & ->)]; [exact H | apply removed_wellNumbered, H].
  - destruct R as [->|(u & Hf & ->)]; [exact H|].
    apply (changed_wellNumbered u _ _ Hf H).
Qed.

(** X17.  Along any sequence of commands from a registry that only [add]
    has numbered (the empty one in particular), the record at position k,
    counted from 1, has an id of at least k, so every id is positive, and
    the active id is positive when there is one: the test
    [!config.activeUser] of [add] and [current] is true only when no user
    is active. *)
Theorem ids_stay_above_position (script : list (Command * Env)) (w : World Config) :
  wellNumbered (registry w) ->
  wellNumbered (registry (runs script w))
  /\ (forall u, u ∈ users (registry (runs script w)) -> 0 < id u)
  /\ (falsy (activeUser (registry (runs script w))) = true
      <-> activeUser (registry (runs script w)) = None).
Proof.
  revert w. induction script as [|[cmd env] script IH]; intros w H.
  - cbn [runs]. split; [exact H|]. destruct H as [Hu Ha]. split.
    + intros u Hin. apply list_elem_of_lookup_1 in Hin as (k & Hk).
      specialize (Hu k u Hk). lia.
    + destruct (activeUser (registry w)) as [a|]; cbn [falsy]; [|tauto].
      specialize (Ha a eq_refl). split; [|discriminate].
      intros E. apply Z.eqb_eq in E. lia.
  - cbn [runs]. apply IH, run_wellNumbered, H.
Qed.

Lemma ids_stay_above_position_witness :
  let script := [(Add jane, accept); (Add bob, decline); (Remove "1", decline);
                 (Add carol, decline); (Change "3", decline)] in
  wellNumbered (registry (runs script fresh))
  /\ (forall u, u ∈ users (registry (runs script fresh)) -> 0 < id u)
  /\ (falsy (activeUser (registry (runs script fresh))) = true
      <-> activeUser (registry (runs script fresh)) = None).
Proof.
  intros script. apply (ids_stay_above_position script fresh).
  split.
  - intros k u Hk. destruct k; discriminate Hk.
  - intros a Ha. discriminate.
Defined.

(** *** [key] *)

(** X18.  [key] for a record that is found never fails: when the file
    [<sshKeyPath>.pub] is on disk it prints a heading and the content of
    that file, otherwise the one line that no key was found; only the
    public key file is looked at, and nothing but the output changes. *)
Theorem key_prints_public_key
    (idArg : string) (env : Env) (w : World Config) (u : User) :
  configFile w <> Unparseable ->
  find (fun u => strict_eq (id u) (parseInt idArg)) (users (registry w)) = Some u ->
  thrown (run (Key idArg) env w) = None
  /\ stdout (after (run (Key idArg) env w))
     = (stdout w
        ++ match fs w !! (sshKeyPath u +:+ ".pub") with
           | Some publicKey =>
               ["Public SSH key for " +:+ name u +:+ ":"; publicKey]
           | None => ["No SSH key found for user " +:+ name u]
           end)%list
  /\ stderr (after (run (Key idArg) env w)) = stderr w
  /\ sameStores w (after (run (Key idArg) env w)).
Proof.
  intros Hp Hf. split; [|split; [|split]].
  4: { apply run_readonly. reflexivity. }
  all: rewrite run_loaded by exact Hp; cbn [handler]; exec1; rewrite Hf; exec1.
  all: rewrite ensureDir_fs.
  all: destruct (fs w !! (sshKeyPath u +:+ ".pub")) as [k|] eqn:E.
  all: rewrite ?bool_decide_eq_true_2 by eauto.
  all: rewrite ?bool_decide_eq_false_2 by (intros [? ?]; discriminate).
  all: exec1; rewrite ?ensureDir_fs, ?E; exec1.
  all: rewrite ?ensureDir_stdout, ?ensureDir_stderr, <- ?app_assoc; reflexivity.
Qed.

Lemma key_prints_public_key_witness :
  let w := runs [(Add jane, accept)] fresh in
  let u := {| id := 1; name := "Jane Doe"; email := "jane@x.com";
              alias := "jane";
              sshKeyPath := "/home/u/.ssh/id_rsa_gitmt_jane" |} in
  fs w !! (sshKeyPath u +:+ ".pub") = Some "PUBLIC"
  /\ thrown (run (Key "1") decline w) = None
  /\ stdout (after (run (Key "1") decline w))
     = (stdout w
        ++ match fs w !! (sshKeyPath u +:+ ".pub") with
           | Some publicKey =>
               ["Public SSH key for " +:+ name u +:+ ":"; publicKey]
           | None => ["No SSH key found for user " +:+ name u]
           end)%list
  /\ stderr (after (run (Key "1") decline w)) = stderr w
  /\ sameStores w (after (run (Key "1") decline w)).
Proof.
  intros w u. split; [vm_compute; reflexivity|].
  apply (key_prints_public_key "1" decline w u).
  - vm_compute. discriminate.
  - vm_compute. reflexivity.
Defined.

End Part001Extra.

(** * The handlers of [src/bin/gitmt.js] *)

Module GitmtExtra.
Import JS Machine MachineProps Gitmt GitmtProps TextProps ParseProps.

(** *** The scope of the git identity *)

Lemma gitmt_add_git (options : Options) (env : Env) (p : Proc Config) :
  gitAt (scopeOf (negb (opt_local options))) (after (outcome (add options env p)))
  = gitAt (scopeOf (negb (opt_local options))) (world p).
Proof.
  destruct p as [[us au gc] w]. destruct options as [n e l]. cbn [opt_local].
  exec2. destruct gc; destruct l; exec2; repeat (branch2; exec2); reflexivity.
Qed.

Lemma gitmt_change_git (idArg : string) (local : bool) (p : Proc Config) :
  gitAt (scopeOf (negb local)) (after (outcome (change idArg local p)))
  = gitAt (scopeOf (negb local)) (world p).
Proof.
  destruct p as [[us au gc] w]. exec2.
  destruct (find _ _); destruct gc; destruct local; exec2;
    repeat (branch2; exec2); reflexivity.
Qed.

Lemma gitmt_remove_git (idArg : string) (env : Env) (p : Proc Config) :
  gitGlobal (after (outcome (remove idArg env p))) = gitGlobal (world p)
  /\ gitLocal (after (outcome (remove idArg env p))) = gitLocal (world p).
Proof.
  destruct p as [[us au gc] w]. exec2.
  destruct (list_find _ _) as [[i u]|]; exec2;
    repeat (branch2; exec2); split; reflexivity.
Qed.

(** X19.  The scope option decides which git configuration [add] and
    [change] may write: with [--local] the global one is left as it was,
    without it the local one is; every other command leaves both. *)
Theorem scope_selects_git_store (cmd : Command) (env : Env) (w : World Config) :
  match cmd with
  | Add options =>
      if opt_local options
      then gitGlobal (after (run cmd env w)) = gitGlobal w
      else gitLocal (after (run cmd env w)) = gitLocal w
  | Change _ local =>
      if local
      then gitGlobal (after (run cmd env w)) = gitGlobal w
      else gitLocal (after (run cmd env w)) = gitLocal w
  | _ =>
      gitGlobal (after (run cmd env w)) = gitGlobal w
      /\ gitLocal (after (run cmd env w)) = gitLocal w
  end.
Proof.
  destruct (parses_or_not (configFile w)) as [Hu|Hp].
  { rewrite gitmt_run_unparseable by exact Hu. cbn [after].
    pose proof (ensureDir_stores w) as (_ & _ & _ & Hg & Hl).
    destruct cmd as [o| | |i l| | |]; try destruct (opt_local o);
      try destruct l; auto. }
  destruct cmd as [o| |i|i l| | |i];
    try (match goal with
         | |- context [run ?c env w] =>
             destruct (gitmt_run_readonly c env w eq_refl) as (_ & _ & _ & Hg & Hl)
         end; split; assumption);
    rewrite gitmt_run_loaded by exact Hp; cbn [handler].
  - pose proof (gitmt_add_git o env (mkProc (registry w) (ensureDir w))) as H.
    cbn [world] in H. destruct (opt_local o); cbn [negb scopeOf gitAt] in H;
      rewrite H; apply ensureDir_stores.
  - pose proof (gitmt_remove_git i env (mkProc (registry w) (ensureDir w))) as [H1 H2].
    cbn [world] in H1, H2. rewrite H1, H2. split; apply ensureDir_stores.
  - pose proof (gitmt_change_git i l (mkProc (registry w) (ensureDir w))) as H.
    cbn [world] in H. destruct l; cbn [negb scopeOf gitAt] in H;
      rewrite H; apply ensureDir_stores.
Qed.


(** *** The files of [~/.ssh] *)




(** *** The snapshot, as [global] shows it *)











End GitmtExtra.

(** * Both revisions *)

Module SharedExtra.
Import JS Machine MachineProps.

Lemma ensureDir_made {C} (w : World C) : configDir (ensureDir w) = true.
Proof. unfold ensureDir. destruct (configDir w) eqn:E; [exact E | reflexivity]. Qed.

Lemma forEach_dir {C A} (l : list A) (f : A -> M C unit) :
  (forall x p, exists p', f x p = Ret () p'
                          /\ configDir (world p') = configDir (world p)) ->
  forall p, exists p', forEach l f p = Ret () p'
                       /\ configDir (world p') = configDir (world p).
Proof.
  intros Hf. induction l as [|x l IH]; intros p; simpl.
  - exists p. split; reflexivity.
  - destruct (Hf x p) as (q & Hq & Hpq). destruct (IH q) as (r & Hr & Hqr).
    exists r. split; [|congruence].
    unfold mbind, M_bind. rewrite Hq. exact Hr.
Qed.

Lemma part001_handler_dir (cmd : Part001.Command) (env : Env)
    (p : Proc Part001.Config) :
  configDir (after (outcome (Part001.handler cmd env p))) = configDir (world p).
Proof.
  destruct p as [c w]. destruct cmd; cbn [Part001.handler]; Part001Props.exec1.
  - repeat (Part001Props.branch; Part001Props.exec1); reflexivity.
  - destruct (falsy _); [|destruct (find _ _)]; exec; reflexivity.
  - destruct (list_find _ _) as [[i u]|]; Part001Props.exec1;
      repeat (Part001Props.branch; Part001Props.exec1); reflexivity.
  - destruct (find _ _); exec; reflexivity.
  - destruct (length (Part001.users c) =? 0)%nat; [exec; reflexivity|].
    match goal with |- context [forEach ?l ?f ?q] =>
      destruct (forEach_dir l f) with (p := q) as (r & -> & Hq)
    end.
    + intros x q. eexists. split; [reflexivity|]. exec. reflexivity.
    + exec. rewrite Hq. exec. reflexivity.
  - destruct (find _ _) as [u|]; [|exec; reflexivity]. exec.
    destruct (fs w !! (Part001.sshKeyPath u +:+ ".pub")) eqn:E.
    + rewrite bool_decide_eq_true_2 by eauto. exec. rewrite E. reflexivity.
    + rewrite bool_decide_eq_false_2 by (intros [? ?]; discriminate). exec.
      reflexivity.
Qed.

Lemma gitmt_handler_dir (cmd : Gitmt.Command) (env : Env)
    (p : Proc Gitmt.Config) :
  configDir (after (outcome (Gitmt.handler cmd env p))) = configDir (world p).
Proof.
  destruct p as [[us au gc] w]. destruct cmd; cbn [Gitmt.handler]; GitmtProps.exec2.
  - destruct gc; destruct (Gitmt.opt_local options); cbn [Gitmt.scopeOf];
      GitmtProps.exec2; repeat (GitmtProps.branch2; GitmtProps.exec2); reflexivity.
  - destruct (falsy _); [|destruct (find _ _)]; exec; reflexivity.
  - destruct (list_find _ _) as [[i u]|]; GitmtProps.exec2;
      repeat (GitmtProps.branch2; GitmtProps.exec2); reflexivity.
  - destruct (find _ _); destruct gc; destruct local; cbn [Gitmt.scopeOf];
      GitmtProps.exec2; repeat (GitmtProps.branch2; GitmtProps.exec2); reflexivity.
  - destruct (length us =? 0)%nat; [exec; reflexivity|].
    match goal with |- context [forEach ?l ?f ?q] =>
      destruct (forEach_dir l f) with (p := q) as (r & -> & Hq)
    end.
    + intros x q. eexists. split; [reflexivity|]. exec. reflexivity.
    + exec. rewrite Hq. exec. reflexivity.
  - destruct gc; exec; reflexivity.
  - destruct (find _ _) as [u|]; [|exec; reflexivity]. exec.
    destruct (fs w !! (Gitmt.sshKeyPath u +:+ ".pub")) eqn:E.
    + rewrite bool_decide_eq_true_2 by eauto. exec. rewrite E. reflexivity.
    + rewrite bool_decide_eq_false_2 by (intros [? ?]; discriminate). exec.
      reflexivity.
Qed.

(** X24.  In both revisions every invocation leaves the directory
    [~/.gitmt] in place, whatever the command, the read-only ones and the
    one that stops on a registry file that does not parse included: the
    top of the script makes it and no handler removes it. *)
Theorem every_run_makes_config_directory :
  (forall cmd env (w : World Part001.Config),
      configDir (after (Part001.run cmd env w)) = true)
  /\ (forall cmd env (w : World Gitmt.Config),
      configDir (after (Gitmt.run cmd env w)) = true).
Proof.
  split; intros cmd env w;
    destruct (parses_or_not (configFile w)) as [Hu|Hp].
  - rewrite Part001Props.run_unparseable by exact Hu. apply ensureDir_made.
  - rewrite Part001Props.run_loaded by exact Hp.
    rewrite part001_handler_dir. apply ensureDir_made.
  - rewrite GitmtProps.gitmt_run_unparseable by exact Hu. apply ensureDir_made.
  - rewrite GitmtProps.gitmt_run_loaded by exact Hp.
    rewrite gitmt_handler_dir. apply ensureDir_made.
Qed.

(** X25.  In both revisions the read-only commands ([list], [current],
    [key] and, in [src/bin/gitmt.js], [global]) leave the files of
    [~/.ssh] and the git configuration, global and local, as they were,
    after any number of runs and also when [current] ends with an
    exception. *)
Theorem read_only_commands_keep_ssh_and_git :
  (forall (script : list (Part001.Command * Env)) (w : World Part001.Config),
      Forall (fun ce => Part001.isReadOnly (fst ce) = true) script ->
      fs (Part001.runs script w) = fs w
      /\ gitGlobal (Part001.runs script w) = gitGlobal w
      /\ gitLocal (Part001.runs script w) = gitLocal w)
  /\ (forall (script : list (Gitmt.Command * Env)) (w : World Gitmt.Config),
      Forall (fun ce => Gitmt.isReadOnly (fst ce) = true) script ->
      fs (Gitmt.runs script w) = fs w
      /\ gitGlobal (Gitmt.runs script w) = gitGlobal w
      /\ gitLocal (Gitmt.runs script w) = gitLocal w).
Proof.
  split; intros script w H.
  - destruct (SharedProps.part001_readonly_runs script w H) as (_ & _ & H'). exact H'.
  - destruct (SharedProps.gitmt_readonly_runs script w H) as (_ & _ & H'). exact H'.
Qed.

Lemma read_only_commands_keep_ssh_and_git_witness :
  let w := Part001.runs [(Part001.Add Part001.jane, Part001.accept)]
             Part001.fresh in
  let script := [(Part001.List, Part001.decline);
                 (Part001.Current, Part001.decline);
                 (Part001.Key "1", Part001.decline)] in
  fs (Part001.runs script w) = fs w
  /\ gitGlobal (Part001.runs script w) = gitGlobal w
  /\ gitLocal (Part001.runs script w) = gitLocal w.
Proof.
  intros w script. apply (proj1 read_only_commands_keep_ssh_and_git).
  repeat constructor.
Defined.

End SharedExtra.
